(** * AI Accounting Assistant: the PII pass and the anomaly engine

    A shallow embedding of [streamlit_app.py]: the [PIIDetector] and
    [AnomalyDetector] classes and the [analyze_data] pipeline, with the
    properties its specification states about them.

    Conventions of the embedding.
    - A text is a sequence of code points below 256; [\d], [\s], [\w] and
      [\b] follow Python's [re] on [str] patterns (Unicode classes)
      restricted to that range.
    - A numeric cell holds a rational. The outlier detector computes as
      pandas and numpy do, in IEEE 754 double precision ([spec_float] at
      precision 53): it reads in a cell the double nearest to its value
      (the value itself when the cell holds a double), and its quartiles,
      bounds, median and comparisons round, overflow and turn to NaN as
      doubles do. The quartiles are interpolated the way numpy's
      [percentile] does it, and the position of a quartile among the
      sorted values is exact (it is, for fewer than 2^50 values). The
      duplicate and the negative detector and the summary statistics are
      read over the rationals, and an integer column is not told from a
      float column.
    - [str] on a numeric cell and the reading of a text by
      [pd.to_numeric] belong to Python and pandas; the development is
      parametric in both.
    - A column has the dtype pandas infers for its cells: it is a column
      of numbers when none of its cells is a text. A text written into a
      column of numbers is accepted by pandas 2, which turns the column to
      object dtype, and refused with a [TypeError] by pandas 3; which of
      the two happens is a parameter, [strict_setitem].
    - A dataset has distinct column names and the default index.
    - A raised exception is a value: a function that can raise returns
      [exn + A]; [analyze_data] also returns the dataset as it leaves
      it. *)

From Stdlib Require Import Ascii String List ZArith QArith Qround Qabs Qcanon Lia Bool.
From Stdlib Require Import SpecFloat.
From Stdlib Require Import DecimalString.
From stdpp Require Import base decidable list sorting strings gmap.

Import ListNotations.
Local Open Scope list_scope.

(** ** Character classes of Python's [re] (str patterns) *)

Definition between (lo hi : N) (a : ascii) : bool :=
  let n := N_of_ascii a in (lo <=? n)%N && (n <=? hi)%N.

(** [\d]: the decimal digits. *)
Definition is_digit (a : ascii) : bool := between 48 57 a.

(** [\s]: Unicode white space below 256. *)
Definition is_space (a : ascii) : bool :=
  between 9 13 a || between 28 32 a
  || (N_of_ascii a =? 133)%N || (N_of_ascii a =? 160)%N.

(** [\w]: alphanumeric code points and the underscore. *)
Definition is_word (a : ascii) : bool :=
  between 48 57 a || between 65 90 a || between 97 122 a
  || (N_of_ascii a =? 95)%N
  || (N_of_ascii a =? 170)%N || (N_of_ascii a =? 178)%N
  || (N_of_ascii a =? 179)%N || (N_of_ascii a =? 181)%N
  || (N_of_ascii a =? 185)%N || (N_of_ascii a =? 186)%N
  || between 188 190 a || between 192 214 a
  || between 216 246 a || between 248 255 a.

(** An item of a bracketed class, and a class as the list of its items.
    A literal, [\d] or [\s] outside brackets is a one-item class. *)
Inductive citem : Type :=
| Ch (c : ascii)
| Rg (lo hi : ascii)
| Dig
| Spc.

Definition cclass : Type := list citem.

Definition item_has (a : ascii) (i : citem) : bool :=
  match i with
  | Ch c => Ascii.eqb a c
  | Rg lo hi => between (N_of_ascii lo) (N_of_ascii hi) a
  | Dig => is_digit a
  | Spc => is_space a
  end.

Definition in_class (cs : cclass) (a : ascii) : bool := existsb (item_has a) cs.

(** ** Regular expressions: the fragment the four patterns use *)

Inductive regex : Type :=
| Bnd                               (* \b *)
| Cls (cs : cclass)                 (* one character of a class *)
| Cat (r1 r2 : regex)               (* r1 r2 *)
| Opt (r : regex)                   (* r?   greedy *)
| Rep (n : nat) (cs : cclass)       (* c{n} *)
| RepFrom (n : nat) (cs : cclass).  (* c{n,} greedy; c+ is c{1,} *)

Infix "&>" := Cat (at level 65, right associativity).

(** A position in the subject: the character before it (none at the start)
    and the text from it on. *)
Definition pos : Type := option ascii * list ascii.

Definition word_opt (o : option ascii) : bool :=
  match o with Some a => is_word a | None => false end.

(** [\b]: exactly one of the two neighbours is a word character. *)
Definition at_boundary (st : pos) : bool :=
  xorb (word_opt (fst st)) (word_opt (head (snd st))).

(** Exactly [n] characters of the class. *)
Fixpoint rep (n : nat) (cs : cclass) (p : option ascii) (s : list ascii) : list pos :=
  match n with
  | O => [(p, s)]
  | S n' =>
      match s with
      | a :: s' => if in_class cs a then rep n' cs (Some a) s' else []
      | [] => []
      end
  end.

(** Any number of characters of the class, the longest run first. *)
Fixpoint many (cs : cclass) (p : option ascii) (s : list ascii) : list pos :=
  match s with
  | a :: s' => if in_class cs a then many cs (Some a) s' ++ [(p, s)] else [(p, s)]
  | [] => [(p, s)]
  end.

(** The backtracking matcher: every way the expression matches at a
    position, in the order the engine tries them. *)
Fixpoint run (r : regex) (st : pos) : list pos :=
  match r with
  | Bnd => if at_boundary st then [st] else []
  | Cls cs => rep 1 cs (fst st) (snd st)
  | Cat r1 r2 => flat_map (run r2) (run r1 st)
  | Opt r1 => run r1 st ++ [st]
  | Rep n cs => rep n cs (fst st) (snd st)
  | RepFrom n cs => flat_map (fun q => many cs (fst q) (snd q)) (rep n cs (fst st) (snd st))
  end.

(** The match found at a position: the number of characters the first
    successful attempt consumed. With [must_advance] an empty match does
    not count (the engine's flag after an empty match). *)
Definition consumed (s : list ascii) (q : pos) : nat := length s - length (snd q).

Definition match_at (must_advance : bool) (r : regex) (p : option ascii) (s : list ascii)
  : option nat :=
  List.find (fun n => negb must_advance || (0 <? n)%nat) (map (consumed s) (run r (p, s))).

(** [re.search] as a truth value: a match at some position. *)
Fixpoint search (r : regex) (p : option ascii) (s : list ascii) : bool :=
  match match_at false r p s with
  | Some _ => true
  | None =>
      match s with
      | a :: s' => search r (Some a) s'
      | [] => false
      end
  end.

(** [re.sub]: the leftmost matches, none overlapping, each replaced by
    [repl] of the matched text; [skip] counts the characters of the current
    match still to pass over. *)
Fixpoint sub_loop (r : regex) (repl : list ascii -> list ascii)
  (skip : nat) (p : option ascii) (s : list ascii) : list ascii :=
  match s with
  | [] =>
      match skip, match_at false r p [] with
      | O, Some _ => repl []
      | _, _ => []
      end
  | a :: s' =>
      match skip with
      | S k => sub_loop r repl k (Some a) s'
      | O =>
          match match_at false r p s with
          | Some (S n) => repl (firstn (S n) s) ++ sub_loop r repl n (Some a) s'
          | Some O =>
              repl [] ++
              match match_at true r p s with
              | Some (S n) => repl (firstn (S n) s) ++ sub_loop r repl n (Some a) s'
              | _ => a :: sub_loop r repl 0 (Some a) s'
              end
          | None => a :: sub_loop r repl 0 (Some a) s'
          end
      end
  end.

Definition chars (s : string) : list ascii := list_ascii_of_string s.

Definition re_search (r : regex) (text : string) : bool :=
  search r None (chars text).

Definition re_sub (r : regex) (repl : list ascii -> list ascii) (text : string) : string :=
  string_of_list_ascii (sub_loop r repl 0 None (chars text)).

(** ** The four patterns of [PIIDetector] *)

Definition lit (c : ascii) : regex := Cls [Ch c].
Definition digit : cclass := [Dig].

(* r'\b\d{3}-?\d{2}-?\d{4}\b' *)
Definition ssn_pattern : regex :=
  Bnd &> Rep 3 digit &> Opt (lit "-") &> Rep 2 digit &> Opt (lit "-") &> Rep 4 digit &> Bnd.

(* [-.\s] *)
Definition sep : cclass := [Ch "-"; Ch "."; Spc].

(* r'\b(?:\(?\d{3}\)?[-.\s]?)?\d{3}[-.\s]?\d{4}\b' *)
Definition phone_pattern : regex :=
  Bnd &> Opt (Opt (lit "(") &> Rep 3 digit &> Opt (lit ")") &> Opt (Cls sep)) &>
  Rep 3 digit &> Opt (Cls sep) &> Rep 4 digit &> Bnd.

(* [A-Za-z0-9._%+-] *)
Definition local_part : cclass :=
  [Rg "A" "Z"; Rg "a" "z"; Rg "0" "9"; Ch "."; Ch "_"; Ch "%"; Ch "+"; Ch "-"].
(* [A-Za-z0-9.-] *)
Definition domain_part : cclass := [Rg "A" "Z"; Rg "a" "z"; Rg "0" "9"; Ch "."; Ch "-"].
(* [A-Z|a-z] *)
Definition tld_part : cclass := [Rg "A" "Z"; Ch "|"; Rg "a" "z"].

(* r'\b[A-Za-z0-9._%+-]+@[A-Za-z0-9.-]+\.[A-Z|a-z]{2,}\b' *)
Definition email_pattern : regex :=
  Bnd &> RepFrom 1 local_part &> lit "@" &> RepFrom 1 domain_part &> lit "." &>
  RepFrom 2 tld_part &> Bnd.

(* r'\b\d{8,}\b' *)
Definition account_pattern : regex := Bnd &> RepFrom 8 digit &> Bnd.


(** ** Cells and datasets *)

(** A cell as pandas hands it to the code: a text, a number, or missing. *)
Inductive cell : Type :=
| Text (s : string)
| Number (q : Qc)
| Missing.

#[global] Instance cell_eq_dec : EqDecision cell.
Proof. solve_decision. Defined.

(** A DataFrame: the length of its index and its columns in order, each
    with one cell per row. Column names are taken to be distinct and the
    index to be the default one (row positions). *)
Record DataFrame : Type := mkDF {
  nrows : nat;
  columns : list (string * list cell)
}.

(* column in df.columns *)
Definition has_column (name : string) (df : DataFrame) : bool :=
  existsb (fun c => String.eqb (fst c) name) (columns df).

(* df[column] *)
Fixpoint lookup_column (name : string) (cols : list (string * list cell)) : list cell :=
  match cols with
  | [] => []
  | (c, values) :: rest => if String.eqb c name then values else lookup_column name rest
  end.

Definition column (name : string) (df : DataFrame) : list cell :=
  lookup_column name (columns df).

(* len(df) *)
Definition len (df : DataFrame) : nat := nrows df.

Inductive PIICategory : Type := SSN | Phone | Email | AccountNumber.

#[global] Instance PIICategory_eq_dec : EqDecision PIICategory.
Proof. solve_decision. Defined.

#[global] Instance PIICategory_countable : Countable PIICategory.
Proof.
  refine (inj_countable'
    (fun c => match c with SSN => 0 | Phone => 1 | Email => 2 | AccountNumber => 3 end)%nat
    (fun n => match n with 0 => SSN | 1 => Phone | 2 => Email | _ => AccountNumber end)%nat _).
  intros []; reflexivity.
Defined.

Inductive AnomalyType : Type := DuplicatePayment | AmountOutlier | NegativeAmount.
Inductive Severity : Type := High | Medium | Low.

Record Anomaly : Type := mkAnomaly {
  type : AnomalyType;
  description : string;
  severity : Severity;
  records_affected : nat
}.

Record SummaryStats : Type := mkStats {
  total_transactions : nat;
  total_amount : Qc;
  average_amount : Qc;
  median_amount : Qc;
  max_amount : Qc;
  min_amount : Qc
}.

(** What a raised exception is in the embedding. *)
Inductive exn : Type := ValueError | TypeError.

(** ** pandas on a numeric Series, over the rationals *)

(* Series.dropna *)
Fixpoint dropna (xs : list (option Qc)) : list Qc :=
  match xs with
  | [] => []
  | Some x :: rest => x :: dropna rest
  | None :: rest => dropna rest
  end.

Definition sort_values (xs : list Qc) : list Qc := merge_sort Qcle xs.

Definition Qc_of_nat (n : nat) : Qc := Q2Qc (inject_Z (Z.of_nat n)).

(* Series.median *)
Definition median (xs : list Qc) : Qc :=
  let sorted := sort_values xs in
  let n := length xs in
  if Nat.even n
  then ((nth (n / 2 - 1) sorted 0 + nth (n / 2) sorted 0) / Q2Qc 2)%Qc
  else nth (n / 2) sorted 0%Qc.

(* Series.sum, Series.mean *)
Definition series_sum (xs : list Qc) : Qc := fold_right Qcplus 0%Qc xs.
Definition series_mean (xs : list Qc) : Qc := (series_sum xs / Qc_of_nat (length xs))%Qc.

Definition Qc_max (x y : Qc) : Qc := if decide (x <= y)%Qc then y else x.
Definition Qc_min (x y : Qc) : Qc := if decide (x <= y)%Qc then x else y.

(* Series.max, Series.min *)
Definition series_max (xs : list Qc) : Qc :=
  match xs with [] => 0%Qc | x :: rest => fold_left Qc_max rest x end.
Definition series_min (xs : list Qc) : Qc :=
  match xs with [] => 0%Qc | x :: rest => fold_left Qc_min rest x end.

(** ** Formatting *)

Definition nat_str (n : nat) : string := NilZero.string_of_uint (Nat.to_uint n).

(* the thousands separators of the ',' option, on the digits from the
   least significant one *)
Fixpoint group3 (rev_digits : list ascii) (k : nat) : list ascii :=
  match rev_digits with
  | [] => []
  | d :: rest =>
      match k, rest with
      | 2%nat, _ :: _ => d :: ","%char :: group3 rest 0
      | _, _ => d :: group3 rest (S k)
      end
  end.

Definition with_commas (n : N) : string :=
  string_of_list_ascii
    (rev (group3 (rev (chars (NilZero.string_of_uint (N.to_uint n)))) 0)).

(* rounding to the nearest integer, ties to even, of num/den >= 0 *)
Definition round_half_even (num den : Z) : Z :=
  let fl := (num / den)%Z in
  let twice := (2 * (num mod den))%Z in
  if (twice <? den)%Z then fl
  else if (den <? twice)%Z then (fl + 1)%Z
  else if Z.even fl then fl else (fl + 1)%Z.

Definition two_digits (n : N) : string :=
  let s := NilZero.string_of_uint (N.to_uint n) in
  if (n <? 10)%N then ("0" ++ s)%string else s.

(* f'{x:,.2f}' *)
Definition format_2f (x : Qc) : string :=
  let a := Qabs (this x) in
  let cents := Z.to_N (round_half_even (Qnum a * 100) (Zpos (Qden a))) in
  ((if decide (x < 0)%Qc then "-" else "")
   ++ with_commas (cents / 100) ++ "." ++ two_digits (cents mod 100))%string.

(** ** pandas on a numeric Series, in double precision

    [spec_float] at precision 53 and maximal exponent 1024 is IEEE 754
    binary64: the operations round to nearest, ties to even, overflow to
    an infinity, and give NaN where the standard does. *)

Definition prec : Z := 53.
Definition emax : Z := 1024.

Definition fadd : spec_float -> spec_float -> spec_float := SFadd prec emax.
Definition fsub : spec_float -> spec_float -> spec_float := SFsub prec emax.
Definition fmul : spec_float -> spec_float -> spec_float := SFmul prec emax.
Definition fdiv : spec_float -> spec_float -> spec_float := SFdiv prec emax.

(** The double nearest to a rational: the quotient of its numerator by its
    denominator, rounded once. It is what a float cell holds, what
    [float] reads in a decimal literal, and the rational itself when this
    is the value of a double. *)
Definition float64 (x : Qc) : spec_float :=
  match Qnum x with
  | Z0 => S754_zero false
  | Zpos n => fdiv (S754_finite false n 0) (S754_finite false (Qden x) 0)
  | Zneg n => fdiv (S754_finite true n 0) (S754_finite false (Qden x) 0)
  end.

(** The rational a finite double stands for. *)
Definition float_value (x : spec_float) : Qc :=
  match x with
  | S754_finite s m e =>
      Q2Qc ((if s then inject_Z (Zneg m) else inject_Z (Zpos m)) * Qpower 2 e)
  | _ => 0%Qc
  end.

(* f'{x:,.2f}' on a float *)
Definition format_float (x : spec_float) : string :=
  match x with
  | S754_nan => "nan"
  | S754_infinity s => if s then "-inf" else "inf"
  | S754_zero s => if s then "-0.00" else "0.00"
  | S754_finite _ _ _ => format_2f (float_value x)
  end.

(** The order numpy sorts doubles by: by value, NaN last. *)
Definition float_le (x y : spec_float) : Prop :=
  match y with
  | S754_nan => True
  | _ => SFleb x y = true
  end.

#[global] Instance float_le_dec : RelDecision float_le.
Proof. intros x y. unfold float_le. destruct y; apply _. Defined.

Definition sort_floats (xs : list spec_float) : list spec_float := merge_sort float_le xs.

(* numpy's _lerp(a, b, t): a + (b - a) * t, and b - (b - a) * (1 - t)
   where t >= 0.5 *)
Definition lerp (a b t : spec_float) : spec_float :=
  if SFleb (float64 (Q2Qc (1 # 2))) t
  then fsub b (fmul (fsub b a) (fsub (float64 (Q2Qc 1)) t))
  else fadd a (fmul (fsub b a) t).

(* Series.quantile(q), interpolation='linear': at position h = (n-1)q of
   the sorted values, between the value at the floor of h and the next
   one, with weight h - floor(h) *)
Definition quantile (xs : list spec_float) (q : Qc) : spec_float :=
  let sorted := sort_floats xs in
  let n := length xs in
  let h := (Qc_of_nat (n - 1) * q)%Qc in
  let i := Z.to_nat (Qfloor h) in
  let gamma := float64 (h - Q2Qc (inject_Z (Qfloor h)))%Qc in
  lerp (nth i sorted S754_nan) (nth (Nat.min (S i) (n - 1)) sorted S754_nan) gamma.

(* Series.median on doubles: the middle of the sorted values, the mean of
   the two middle ones when their number is even *)
Definition fmedian (xs : list spec_float) : spec_float :=
  let sorted := sort_floats xs in
  let n := length xs in
  if Nat.even n
  then fdiv (fadd (nth (n / 2 - 1) sorted S754_nan) (nth (n / 2) sorted S754_nan))
         (float64 (Q2Qc 2))
  else nth (n / 2) sorted S754_nan.

(** ** The order of group keys

    [groupby] lists its groups by sorted key; in a column of mixed cells
    numbers come before texts, texts compare by code point. *)

Definition cell_le (a b : cell) : Prop :=
  match a, b with
  | Number x, Number y => (x <= y)%Qc
  | Number _, _ => True
  | Text s, Text t => String.leb s t = true
  | Text _, Number _ => False
  | Text _, Missing => True
  | Missing, Missing => True
  | Missing, _ => False
  end.

#[global] Instance cell_le_dec : RelDecision cell_le.
Proof. intros [s|x|] [t|y|]; simpl; apply _. Defined.

Definition key_le (k1 k2 : cell * cell) : Prop :=
  if decide (fst k1 = fst k2) then cell_le (snd k1) (snd k2) else cell_le (fst k1) (fst k2).

#[global] Instance key_le_dec : RelDecision key_le.
Proof. intros k1 k2; unfold key_le; destruct (decide (fst k1 = fst k2)); apply _. Defined.

(** ** A reading of numbers for the closed examples

    Plain decimal literals, and the way a float prints when its value is a
    short decimal. They stand for [pd.to_numeric] and [str] on the inputs
    of the examples below. *)

Fixpoint digits_value (acc : N) (s : list ascii) : option N :=
  match s with
  | [] => Some acc
  | a :: rest =>
      if is_digit a then digits_value (acc * 10 + (N_of_ascii a - 48)) rest else None
  end.

Fixpoint split_dot (s : list ascii) : list ascii * option (list ascii) :=
  match s with
  | [] => ([], None)
  | a :: rest =>
      if Ascii.eqb a "." then ([], Some rest)
      else let '(i, f) := split_dot rest in (a :: i, f)
  end.

Definition unsigned_decimal (s : list ascii) : option Qc :=
  let '(i, f) := split_dot s in
  let f := default [] f in
  match i ++ f with
  | [] => None
  | _ :: _ =>
      match digits_value 0 (i ++ f) with
      | Some n => Some (Q2Qc (Z.of_N n # Pos.of_nat (10 ^ length f)))
      | None => None
      end
  end.

Definition decimal_number (s : string) : option Qc :=
  match chars s with
  | "-"%char :: rest => option_map Qcopp (unsigned_decimal rest)
  | l => unsigned_decimal l
  end.

Fixpoint pad_left (n : nat) (s : list ascii) : list ascii :=
  match n with
  | O => s
  | S k => if (length s <? n)%nat then "0"%char :: pad_left k s else s
  end.

(* the first k in 1..fuel with q * 10^k integral *)
Fixpoint decimal_places (fuel k : nat) (q : Q) : nat :=
  match fuel with
  | O => k
  | S fuel' =>
      if (Z.pos (Qden (Qred (q * inject_Z (10 ^ Z.of_nat k)))) =? 1)%Z then k
      else decimal_places fuel' (S k) q
  end.

Definition float_str (x : Qc) : string :=
  let a := Qabs (this x) in
  let k := decimal_places 16 1 a in
  let scaled := Z.to_N (Qfloor (a * inject_Z (10 ^ Z.of_nat k))) in
  let ip := (scaled / 10 ^ N.of_nat k)%N in
  let fp := (scaled mod 10 ^ N.of_nat k)%N in
  ((if decide (x < 0)%Qc then "-" else "")
   ++ NilZero.string_of_uint (N.to_uint ip) ++ "."
   ++ string_of_list_ascii (pad_left k (chars (NilZero.string_of_uint (N.to_uint fp)))))%string.

(** ** Sample datasets *)

Definition num (z : Z) : cell := Number (Q2Qc (inject_Z z)).

(** Two vendors known by their e-mail addresses, each paid 100 once. *)
Definition df_contacts : DataFrame :=
  mkDF 2 [("vendor", [Text "alice@example.com"; Text "bob@example.org"]);
          ("amount", [num 100; num 100])].

(** Two payments to one vendor whose amount cells hold the same text. *)
Definition df_text_amounts : DataFrame :=
  mkDF 2 [("vendor", [Text "Acme"; Text "Acme"]);
          ("amount", [Text "TBD"; Text "TBD"])].


(** Two rows with the same amount and no vendor. *)
Definition df_no_vendor : DataFrame :=
  mkDF 2 [("vendor", [Missing; Missing]); ("amount", [num 100; num 100])].

(** The sample of the application, cut to vendor and amount. *)
Definition df_sample : DataFrame :=
  mkDF 4 [("vendor", [Text "Office Supplies Inc"; Text "Tech Solutions LLC";
                      Text "Office Supplies Inc"; Text "Office Supplies Inc"]);
          ("amount", [Number (Q2Qc (24567 # 100)); num 1250;
                      Number (Q2Qc (24567 # 100)); Number (Q2Qc (24567 # 100))])].

(** Seven amounts, one far from the others. *)
Definition df_outlier : DataFrame :=
  mkDF 7 [("amount", [num 10; num 12; num 11; num 13; num 12; num 1000; num 11])].

(** The sample data of the application.

    The columns as [pd.read_csv] types them: texts, a float column for the
    amounts, and a float column with gaps for the account numbers. *)

Definition amount_of (s : string) : cell :=
  match decimal_number s with Some q => Number q | None => Missing end.

Definition sample_data : DataFrame :=
  mkDF 10
    [("transaction_id",
      map Text ["TXN-001"; "TXN-002"; "TXN-003"; "TXN-004"; "TXN-005";
                "TXN-006"; "TXN-007"; "TXN-008"; "TXN-009"; "TXN-010"]);
     ("date",
      map Text ["2024-01-15"; "2024-01-16"; "2024-01-17"; "2024-01-18"; "2024-01-19";
                "2024-01-20"; "2024-01-21"; "2024-01-22"; "2024-01-23"; "2024-01-24"]);
     ("vendor",
      map Text ["Office Supplies Inc"; "Tech Solutions LLC"; "Office Supplies Inc";
                "Consulting Services"; "Utilities Co"; "Marketing Agency";
                "Office Supplies Inc"; "Travel Services"; "Equipment Rental";
                "Legal Services"]);
     ("amount",
      map amount_of ["245.67"; "1250.00"; "245.67"; "5000.00"; "892.34";
                     "3500.00"; "245.67"; "-150.00"; "750.00"; "2800.00"]);
     ("description",
      map Text ["Office supplies purchase"; "Software licensing";
                "Office supplies purchase"; "Q1 consulting services";
                "Monthly electricity bill"; "Digital marketing campaign";
                "Office supplies purchase"; "Refund for cancelled trip";
                "Monthly equipment rental"; "Contract review services"]);
     ("employee_contact",
      [Text "john.doe@company.com"; Text "555-123-4567"; Text "jane.smith@company.com";
       Text "bob.wilson@company.com"; Missing; Text "alice.johnson@company.com";
       Text "mike.brown@company.com"; Text "carol.davis@company.com"; Missing;
       Text "david.miller@company.com"]);
     ("account_number",
      [Missing; amount_of "8876543210"; Missing; amount_of "1234567890";
       amount_of "7654321098"; Missing; Missing; amount_of "5555666677"; Missing;
       amount_of "9988776655"])].

(** Seven amounts, a large refund among them. *)
Definition df_refund : DataFrame :=
  mkDF 7 [("amount", [num 10; num 12; num 11; num 13; num 12; num (-1000); num 11])].

(** Five amounts in cents. Over the rationals the least of them is the
    lower bound of the outlier detector itself: 499.66 - 1.5 * 899.80. *)
Definition df_cents : DataFrame :=
  mkDF 5 [("amount", map amount_of ["-850.04"; "499.66"; "783.56"; "1399.46"; "2749.16"])].

(** Three payments of 5 and an amount that does not parse. *)
Definition df_equal_amounts : DataFrame :=
  mkDF 4 [("amount", [num 5; num 5; Text "TBD"; num 5])].

(** The header of the sample, with no row under it. *)
Definition df_no_rows : DataFrame :=
  mkDF 0 [("vendor", []); ("amount", []); ("employee_contact", [])].

(** ** What the matcher guarantees: vocabulary

    The least number of characters a match of an expression consumes, the
    characters it can consume, the character before the position a match
    ends at, and the shape of the result of [re.sub]. *)

Fixpoint min_len (r : regex) : nat :=
  match r with
  | Bnd => 0
  | Cls _ => 1
  | Cat r1 r2 => min_len r1 + min_len r2
  | Opt _ => 0
  | Rep n _ => n
  | RepFrom n _ => n
  end.

Fixpoint eats (r : regex) (a : ascii) : bool :=
  match r with
  | Bnd => false
  | Cls cs => in_class cs a
  | Cat r1 r2 => eats r1 a || eats r2 a
  | Opt r1 => eats r1 a
  | Rep _ cs => in_class cs a
  | RepFrom _ cs => in_class cs a
  end.

Definition prev_after (p : option ascii) (m : list ascii) : option ascii :=
  fold_left (fun _ a => Some a) m p.

(** [Redacted r repl p s out]: [out] is [s], read from a position whose
    previous character is [p], with every character at which [r] finds no
    match kept as it is, and every match found (the first the engine
    finds there, never empty) replaced by [repl] of the matched text, the
    reading resuming right after the match. *)
Inductive Redacted (r : regex) (repl : list ascii -> list ascii)
  : option ascii -> list ascii -> list ascii -> Prop :=
| Redacted_end p : Redacted r repl p [] []
| Redacted_keep p a s out :
    match_at false r p (a :: s) = None ->
    Redacted r repl (Some a) s out ->
    Redacted r repl p (a :: s) (a :: out)
| Redacted_hit p m s out :
    m <> [] ->
    match_at false r p (m ++ s) = Some (length m) ->
    Redacted r repl (prev_after p m) s out ->
    Redacted r repl p (m ++ s) (repl m ++ out).

(** Whether a match can be empty, the characters it can start and end
    with, and whether the expression ends with [\b]. *)
Fixpoint nullable (r : regex) : bool :=
  match r with
  | Bnd => true
  | Cls _ => false
  | Cat r1 r2 => nullable r1 && nullable r2
  | Opt _ => true
  | Rep n _ => (n =? 0)%nat
  | RepFrom n _ => (n =? 0)%nat
  end.

Fixpoint firsts (r : regex) (a : ascii) : bool :=
  match r with
  | Bnd => false
  | Cls cs => in_class cs a
  | Cat r1 r2 => firsts r1 a || (nullable r1 && firsts r2 a)
  | Opt r1 => firsts r1 a
  | Rep _ cs => in_class cs a
  | RepFrom _ cs => in_class cs a
  end.

Fixpoint lasts (r : regex) (a : ascii) : bool :=
  match r with
  | Bnd => false
  | Cls cs => in_class cs a
  | Cat r1 r2 => lasts r2 a || (nullable r2 && lasts r1 a)
  | Opt r1 => lasts r1 a
  | Rep _ cs => in_class cs a
  | RepFrom _ cs => in_class cs a
  end.

Fixpoint ends_bnd (r : regex) : bool :=
  match r with
  | Bnd => true
  | Cat _ r2 => ends_bnd r2
  | _ => false
  end.

Definition head_ok (f : ascii -> bool) (m : list ascii) : Prop :=
  match m with [] => True | a :: _ => f a = true end.

Definition last_ok (f : ascii -> bool) (m : list ascii) : Prop :=
  match rev m with [] => True | a :: _ => f a = true end.

(** A mask that a second pass leaves alone: not empty, its first
    character one the expression never consumes, its first and last
    characters word characters, and none of its characters one a match
    can start with. *)
Definition mask_ok (r : regex) (k : list ascii) : bool :=
  match k with
  | [] => false
  | x :: _ =>
      negb (eats r x) && is_word x && word_opt (prev_after None k)
      && forallb (fun y => negb (firsts r y)) k
  end.

(** No match at any position of a text. *)
Definition quiet (r : regex) (p : option ascii) (s : list ascii) : Prop :=
  forall l t, s = l ++ t -> run r (prev_after p l, t) = [].

Section Pipeline.

(** [str] on a numeric cell, and the number [pd.to_numeric] reads in a
    text ([None] where it does not parse). *)
Variable py_str : Qc -> string.
Variable to_number : string -> option Qc.

(** Whether pandas refuses a text written into a column of numbers
    (pandas 3) or turns the column to object dtype (pandas 2). *)
Variable strict_setitem : bool.

Set Default Proof Using "Type".

(* pd.isna *)
Definition isna (v : cell) : bool :=
  match v with Missing => true | _ => false end.

(* str(text) *)
Definition str (v : cell) : string :=
  match v with
  | Text s => s
  | Number q => py_str q
  | Missing => "nan"
  end.

(** *** class PIIDetector *)

Definition detect_ssn (text : cell) : bool :=
  if isna text then false else re_search ssn_pattern (str text).

Definition detect_phone (text : cell) : bool :=
  if isna text then false else re_search phone_pattern (str text).

Definition detect_email (text : cell) : bool :=
  if isna text then false else re_search email_pattern (str text).

Definition detect_account_number (text : cell) : bool :=
  if isna text then false else re_search account_pattern (str text).

Definition ssn_mask : list ascii -> list ascii := fun _ => chars "XXX-XX-XXXX".
Definition phone_mask : list ascii -> list ascii := fun _ => chars "XXX-XXX-XXXX".
Definition email_mask : list ascii -> list ascii := fun _ => chars "REDACTED@EMAIL.COM".
(* lambda m: 'X' * len(m.group()) *)
Definition account_mask : list ascii -> list ascii := fun m => repeat "X"%char (length m).

Definition redact_pii (text : cell) (pii_type : string) : cell :=
  if isna text then text
  else
    let text := str text in
    if String.eqb pii_type "ssn" then Text (re_sub ssn_pattern ssn_mask text)
    else if String.eqb pii_type "phone" then Text (re_sub phone_pattern phone_mask text)
    else if String.eqb pii_type "email" then Text (re_sub email_pattern email_mask text)
    else if String.eqb pii_type "account" then Text (re_sub account_pattern account_mask text)
    else Text text.

(** *** class AnomalyDetector *)

(* errors='coerce': a cell as a number, or NaN *)
Definition coerce (v : cell) : option Qc :=
  match v with
  | Number q => Some q
  | Text s => to_number s
  | Missing => None
  end.

(* pd.to_numeric(series, errors='coerce') *)
Definition to_numeric (values : list cell) : list (option Qc) := map coerce values.

(* the keys of df.groupby(['vendor', 'amount']): rows with a missing key
   are dropped *)
Definition group_keys (df : DataFrame) : list (cell * cell) :=
  List.filter (fun k => negb (isna (fst k)) && negb (isna (snd k)))
    (combine (column "vendor" df) (column "amount" df)).

Definition group_size (keys : list (cell * cell)) (k : cell * cell) : nat :=
  length (List.filter (fun k' => bool_decide (k' = k)) keys).

(* df.groupby(['vendor', 'amount']).size() *)
Definition groupby_size (df : DataFrame) : list ((cell * cell) * nat) :=
  let keys := group_keys df in
  map (fun k => (k, group_size keys k)) (merge_sort key_le (remove_dups keys)).

(* f'{amount:,.2f}': the format code is refused on a str *)
Definition format_amount (amount : cell) : exn + string :=
  match amount with
  | Number q => inr (format_2f q)
  | Text _ => inl ValueError
  | Missing => inr "nan"%string
  end.

Fixpoint duplicate_anomalies (duplicates : list ((cell * cell) * nat))
  : exn + list Anomaly :=
  match duplicates with
  | [] => inr []
  | ((vendor, amount), count) :: rest =>
      match format_amount amount with
      | inl e => inl e
      | inr amt =>
          match duplicate_anomalies rest with
          | inl e => inl e
          | inr anomalies =>
              inr ({| type := DuplicatePayment;
                      description := ("$" ++ amt ++ " payment to " ++ str vendor
                                      ++ " appears " ++ nat_str count ++ " times")%string;
                      severity := Medium;
                      records_affected := count |} :: anomalies)
          end
      end
  end.

Definition detect_duplicate_payments (df : DataFrame) : exn + list Anomaly :=
  if has_column "amount" df && has_column "vendor" df then
    let duplicates := groupby_size df in
    let duplicates := List.filter (fun g => (1 <? snd g)%nat) duplicates in
    duplicate_anomalies duplicates
  else inr [].

(* abs(amount) > amounts.median() * 10 *)
Definition outlier_anomaly (med amount : spec_float) : Anomaly :=
  {| type := AmountOutlier;
     description := ("Unusual amount: $" ++ format_float amount)%string;
     severity := if SFltb (fmul med (float64 (Q2Qc 10))) (SFabs amount) then High else Medium;
     records_affected := 1 |}.

Definition detect_amount_outliers (df : DataFrame) : list Anomaly :=
  if has_column "amount" df then
    let amounts := map float64 (dropna (to_numeric (column "amount" df))) in
    if (0 <? length amounts)%nat then
      let Q1 := quantile amounts (Q2Qc (1 # 4)) in
      let Q3 := quantile amounts (Q2Qc (3 # 4)) in
      let IQR := fsub Q3 Q1 in
      let lower_bound := fsub Q1 (fmul (float64 (Q2Qc (3 # 2))) IQR) in
      let upper_bound := fadd Q3 (fmul (float64 (Q2Qc (3 # 2))) IQR) in
      let outliers :=
        List.filter (fun a => SFltb a lower_bound || SFltb upper_bound a) amounts in
      map (outlier_anomaly (fmedian amounts)) outliers
    else []
  else [].

Definition negative_anomaly (amount : Qc) : Anomaly :=
  {| type := NegativeAmount;
     description := ("Negative transaction: $" ++ format_2f amount)%string;
     severity := Medium;
     records_affected := 1 |}.

Definition detect_negative_amounts (df : DataFrame) : list Anomaly :=
  if has_column "amount" df then
    let amounts := to_numeric (column "amount" df) in
    let negative_amounts :=
      dropna (List.filter (fun a => match a with
                                    | Some x => bool_decide (x < 0)%Qc
                                    | None => false
                                    end) amounts) in
    map negative_anomaly negative_amounts
  else [].

(** *** analyze_data *)

Record Results : Type := mkResults {
  pii_detected : list (string * gset PIICategory);
  pii_count : nat;
  anomalies : list Anomaly;
  summary_stats : option SummaryStats;
  redacted_data : DataFrame
}.

(** One turn of the inner loop: the label appended to [column_pii] and the
    value written to [df.loc[index, column]], or nothing. *)
Definition scan_value (value : cell) : option (PIICategory * cell) :=
  if detect_ssn value then Some (SSN, redact_pii value "ssn")
  else if detect_phone value then Some (Phone, redact_pii value "phone")
  else if detect_email value then Some (Email, redact_pii value "email")
  else if detect_account_number value then Some (AccountNumber, redact_pii value "account")
  else None.

(** The inner loop over one column: [column_pii] and the column as the
    writes leave it. *)
Fixpoint scan_column (values : list cell) : list PIICategory * list cell :=
  match values with
  | [] => ([], [])
  | value :: rest =>
      let '(column_pii, written) := scan_column rest in
      match scan_value value with
      | Some (label, redacted) => (label :: column_pii, redacted :: written)
      | None => (column_pii, value :: written)
      end
  end.

(** The dtype of a column: a column of numbers (int64 or float64) unless
    one of its cells is a text. *)
Definition numeric_dtype (values : list cell) : bool :=
  forallb (fun v => match v with Text _ => false | _ => true end) values.

(** [df.loc[index, column] = text] on a column with these cells: refused
    when the column is one of numbers and pandas does not change dtypes. *)
Definition setitem_refused (values : list cell) : bool :=
  strict_setitem && numeric_dtype values.

(** The outer loop: the columns of [df] as the writes leave them, and
    either the exception of a refused write or the entries added to
    [pii_detected] and the amount added to [pii_count]. The first write
    into a column is refused or accepted with all the later ones, and a
    refused write ends the loop with the column and those after it
    untouched. *)
Fixpoint scan_columns (cols : list (string * list cell))
  : list (string * list cell) * (exn + list (string * gset PIICategory) * nat) :=
  match cols with
  | [] => ([], inr ([], 0%nat))
  | (name, values) :: rest =>
      let '(column_pii, written) := scan_column values in
      match column_pii with
      | [] =>
          let '(rest', outcome) := scan_columns rest in
          ((name, written) :: rest', outcome)
      | _ :: _ =>
          if setitem_refused values then ((name, values) :: rest, inl TypeError)
          else
            let '(rest', outcome) := scan_columns rest in
            ((name, written) :: rest',
             match outcome with
             | inl e => inl e
             | inr (detected, count) =>
                 inr ((name, list_to_set column_pii) :: detected,
                      (length column_pii + count)%nat)
             end)
      end
  end.

Definition summary_statistics (df : DataFrame) : option SummaryStats :=
  if has_column "amount" df then
    let amounts := dropna (to_numeric (column "amount" df)) in
    if (0 <? length amounts)%nat then
      Some {| total_transactions := len df;
              total_amount := series_sum amounts;
              average_amount := series_mean amounts;
              median_amount := median amounts;
              max_amount := series_max amounts;
              min_amount := series_min amounts |}
    else None
  else None.

(** [analyze_data df]: the state of the caller's [df] when the call ends,
    and the dictionary it returns or the exception it raises. The loop
    writes every redaction into [df] itself and ends the run with the
    exception of a write pandas refuses; the copy taken for
    ['redacted_data'] at the start is replaced by [df] after the loop, and
    the detectors and the statistics then read [df] as written. *)
Definition analyze_data (df : DataFrame) : DataFrame * (exn + Results) :=
  let '(written, scanned) := scan_columns (columns df) in
  let df := mkDF (nrows df) written in
  match scanned with
  | inl e => (df, inl e)
  | inr (detected, count) =>
      match detect_duplicate_payments df with
      | inl e => (df, inl e)
      | inr duplicate =>
          (df,
           inr {| pii_detected := detected;
                  pii_count := count;
                  anomalies := duplicate ++ detect_amount_outliers df
                               ++ detect_negative_amounts df;
                  summary_stats := summary_statistics df;
                  redacted_data := df |})
      end
  end.

(** *** The scanner as the specification words it

    [classify]: the categories in the fixed priority order, the first
    whose detector accepts the value. *)

Definition priority : list PIICategory := [SSN; Phone; Email; AccountNumber].

Definition detects (c : PIICategory) (value : cell) : bool :=
  match c with
  | SSN => detect_ssn value
  | Phone => detect_phone value
  | Email => detect_email value
  | AccountNumber => detect_account_number value
  end.

Definition pii_type_of (c : PIICategory) : string :=
  match c with
  | SSN => "ssn"
  | Phone => "phone"
  | Email => "email"
  | AccountNumber => "account"
  end.

Definition classify (value : cell) : option PIICategory :=
  List.find (fun c => detects c value) priority.

(** The categories observed in a column, one per classified cell. *)
Definition observed (values : list cell) : list PIICategory := omap classify values.

(** *** Vocabulary of the statements *)

(** The cells of a column as a completed scan leaves them. *)
Definition redacted_cells (values : list cell) : list cell :=
  map (fun v => match classify v with
                | Some c => redact_pii v (pii_type_of c)
                | None => v
                end) values.

(** A column whose first write the scanner finds refused: a column of
    numbers with a classified cell, under a pandas that keeps dtypes. *)
Definition refused_column (col : string * list cell) : bool :=
  setitem_refused (snd col) && match observed (snd col) with [] => false | _ :: _ => true end.

(** NaN, or a value that compares equal to [f]. *)
Definition near (f x : spec_float) : Prop := x = S754_nan \/ SFcompare f x = Some Eq.
(** NaN, or a zero. *)
Definition null (x : spec_float) : Prop := x = S754_nan \/ exists s, x = S754_zero s.
(** A zero or a finite double. *)
Definition plain (t : spec_float) : Prop :=
  match t with S754_zero _ | S754_finite _ _ _ => True | _ => False end.

(** The entry of a column in the report. *)
Definition report_entry (col : string * list cell) : option (string * gset PIICategory) :=
  match observed (snd col) with
  | [] => None
  | c :: l => Some (fst col, list_to_set (c :: l))
  end.

Definition high_or_medium (a : Anomaly) : Prop :=
  severity a = High \/ severity a = Medium.

(** The anomaly of one group of the duplicate detector. *)
Definition duplicate_anomaly (g : (cell * cell) * nat) : Anomaly :=
  {| type := DuplicatePayment;
     description := ("$" ++ match snd (fst g) with
                            | Number q => format_2f q
                            | _ => "nan"
                            end
                     ++ " payment to " ++ str (fst (fst g))
                     ++ " appears " ++ nat_str (snd g) ++ " times")%string;
     severity := Medium;
     records_affected := snd g |}.

(** ** The matcher: soundness *)

Lemma prev_after_app p m1 m2 :
  prev_after p (m1 ++ m2) = prev_after (prev_after p m1) m2.
Proof. apply fold_left_app. Qed.

Lemma rep_sound n cs : forall p s q,
  In q (rep n cs p s) ->
  exists m, s = m ++ snd q /\ fst q = prev_after p m /\ length m = n
            /\ Forall (fun a => in_class cs a = true) m.
Proof.
  induction n as [|n IH]; intros p s q Hq; simpl in Hq.
  - destruct Hq as [<-|[]]. exists []. repeat split; constructor.
  - destruct s as [|a s]; [contradiction|].
    destruct (in_class cs a) eqn:Ha; [|contradiction].
    destruct (IH _ _ _ Hq) as (m & Hs & Hp & Hl & Hall).
    exists (a :: m). simpl. repeat split; [congruence|assumption|lia|].
    constructor; assumption.
Qed.

Lemma many_sound cs : forall s p q,
  In q (many cs p s) ->
  exists m, s = m ++ snd q /\ fst q = prev_after p m
            /\ Forall (fun a => in_class cs a = true) m.
Proof.
  induction s as [|a s IH]; intros p q Hq; simpl in Hq.
  - destruct Hq as [<-|[]]. exists []. repeat split; constructor.
  - destruct (in_class cs a) eqn:Ha.
    + apply in_app_or in Hq. destruct Hq as [Hq|[<-|[]]].
      * destruct (IH _ _ Hq) as (m & Hs & Hp & Hall).
        exists (a :: m). simpl. repeat split; [congruence|assumption|].
        constructor; assumption.
      * exists []. repeat split; constructor.
    + destruct Hq as [<-|[]]. exists []. repeat split; constructor.
Qed.

Lemma run_sound r : forall st q,
  In q (run r st) ->
  exists m, snd st = m ++ snd q /\ fst q = prev_after (fst st) m
            /\ min_len r <= length m /\ Forall (fun a => eats r a = true) m.
Proof.
  induction r as [|cs|r1 IH1 r2 IH2|r1 IH1|n cs|n cs]; intros st q Hq; cbn [run] in Hq.
  - destruct (at_boundary st); [|contradiction].
    destruct Hq as [<-|[]]. exists []. repeat split; simpl; [lia|constructor].
  - apply rep_sound in Hq. destruct Hq as (m & Hs & Hp & Hl & Hall).
    exists m. repeat split; simpl; [assumption|assumption|lia|assumption].
  - apply in_flat_map in Hq. destruct Hq as (q1 & Hq1 & Hq2).
    destruct (IH1 _ _ Hq1) as (m1 & Hs1 & Hp1 & Hl1 & Hall1).
    destruct (IH2 _ _ Hq2) as (m2 & Hs2 & Hp2 & Hl2 & Hall2).
    exists (m1 ++ m2). repeat split.
    + rewrite Hs1, Hs2. apply app_assoc.
    + rewrite prev_after_app, <- Hp1. assumption.
    + simpl. rewrite length_app. lia.
    + apply Forall_app. split.
      * eapply Forall_impl; [exact Hall1|]. simpl. intros a ->. reflexivity.
      * eapply Forall_impl; [exact Hall2|]. simpl. intros a ->. apply orb_true_r.
  - apply in_app_or in Hq. destruct Hq as [Hq|[<-|[]]].
    + destruct (IH1 _ _ Hq) as (m & Hs & Hp & Hl & Hall).
      exists m. repeat split; simpl; [assumption|assumption|lia|assumption].
    + exists []. repeat split; simpl; [lia|constructor].
  - apply rep_sound in Hq. destruct Hq as (m & Hs & Hp & Hl & Hall).
    exists m. repeat split; simpl; [assumption|assumption|lia|assumption].
  - apply in_flat_map in Hq. destruct Hq as (q1 & Hq1 & Hq2).
    apply rep_sound in Hq1. destruct Hq1 as (m1 & Hs1 & Hp1 & Hl1 & Hall1).
    apply many_sound in Hq2. destruct Hq2 as (m2 & Hs2 & Hp2 & Hall2).
    exists (m1 ++ m2). repeat split.
    + simpl in *. rewrite Hs1, Hs2. apply app_assoc.
    + rewrite prev_after_app. simpl in *. rewrite <- Hp1. assumption.
    + simpl. rewrite length_app. lia.
    + apply Forall_app. split; assumption.
Qed.

(** What a match found at a position is: a prefix of the text there, at
    least as long as the pattern requires, of characters the pattern can
    consume. *)
Lemma match_at_sound adv r p s n :
  match_at adv r p s = Some n ->
  exists m rest, s = m ++ rest /\ length m = n /\ min_len r <= n
                 /\ Forall (fun a => eats r a = true) m
                 /\ In (prev_after p m, rest) (run r (p, s)).
Proof.
  unfold match_at. intros H. apply find_some in H. destruct H as [Hin _].
  apply in_map_iff in Hin. destruct Hin as (q & Hn & Hq).
  destruct (run_sound _ _ _ Hq) as (m & Hs & Hp & Hl & Hall). simpl in Hs, Hp.
  exists m, (snd q). repeat split; try assumption.
  - subst n. unfold consumed. rewrite Hs, length_app. lia.
  - subst n. unfold consumed. rewrite Hs, length_app. lia.
  - rewrite <- Hp. destruct q; assumption.
Qed.

Lemma match_at_nonempty adv r p s n :
  0 < min_len r -> match_at adv r p s = Some n -> 0 < n.
Proof.
  intros Hmin H. apply match_at_sound in H.
  destruct H as (m & rest & _ & _ & Hl & _). lia.
Qed.

Lemma sub_loop_skip r repl : forall k s p,
  k <= length s ->
  sub_loop r repl k p s = sub_loop r repl 0 (prev_after p (firstn k s)) (skipn k s).
Proof.
  induction k as [|k IH]; intros s p Hk.
  - reflexivity.
  - destruct s as [|a s]; simpl in Hk; [lia|].
    simpl. rewrite IH by lia. reflexivity.
Qed.

Lemma sub_loop_redacted r repl :
  0 < min_len r ->
  forall n s p, length s <= n -> Redacted r repl p s (sub_loop r repl 0 p s).
Proof.
  intros Hmin. induction n as [|n IH]; intros s p Hn.
  - destruct s; simpl in Hn; [|lia]. simpl.
    destruct (match_at false r p []) as [k|] eqn:Hm; [|constructor].
    apply match_at_sound in Hm. destruct Hm as (m & rest & Hs & Hl & Hk & _).
    destruct m; [simpl in Hl; lia|discriminate].
  - destruct s as [|a s].
    + simpl. destruct (match_at false r p []) as [k|] eqn:Hm; [|constructor].
      apply match_at_sound in Hm. destruct Hm as (m & rest & Hs & Hl & Hk & _).
      destruct m; [simpl in Hl; lia|discriminate].
    + simpl in Hn. cbn [sub_loop].
      destruct (match_at false r p (a :: s)) as [[|k]|] eqn:Hm.
      * apply match_at_nonempty in Hm; [lia|assumption].
      * pose proof Hm as Hm'. apply match_at_sound in Hm'.
        destruct Hm' as (m & rest & Hs & Hl & _).
        destruct m as [|b m]; [discriminate|].
        simpl in Hs. injection Hs as <- Hs. simpl in Hl. injection Hl as Hl.
        rewrite sub_loop_skip by (subst s; rewrite length_app; lia).
        assert (Hf : firstn k s = m).
        { subst s k. rewrite firstn_app, Nat.sub_diag, firstn_all. simpl. apply app_nil_r. }
        assert (Hsk : skipn k s = rest).
        { subst s k. rewrite skipn_app, Nat.sub_diag, skipn_all. reflexivity. }
        rewrite Hf, Hsk.
        assert (Hfs : firstn (S k) (a :: s) = a :: m) by (simpl; rewrite Hf; reflexivity).
        rewrite Hfs. subst s.
        change (a :: m ++ rest) with ((a :: m) ++ rest).
        apply Redacted_hit.
        -- discriminate.
        -- simpl length. rewrite Hl. exact Hm.
        -- simpl. apply IH. rewrite length_app in Hn. lia.
      * apply Redacted_keep; [assumption|]. apply IH. lia.
Qed.

(** ** The matcher: when a second replacement changes nothing *)

Lemma last_ok_app f m1 m2 :
  last_ok f (m1 ++ m2) <-> (match m2 with [] => last_ok f m1 | _ :: _ => last_ok f m2 end).
Proof.
  unfold last_ok. rewrite rev_app_distr.
  destruct m2 as [|b m2]; [simpl; reflexivity|].
  destruct (rev (b :: m2)) as [|c l] eqn:H.
  - apply (f_equal (@length _)) in H. rewrite length_rev in H. discriminate.
  - simpl. reflexivity.
Qed.

Lemma Forall_head_ok (f : ascii -> bool) m : Forall (fun a => f a = true) m -> head_ok f m.
Proof. intros H. destruct H; simpl; auto. Qed.

Lemma Forall_last_ok (f : ascii -> bool) m : Forall (fun a => f a = true) m -> last_ok f m.
Proof.
  intros H. unfold last_ok. destruct (rev m) as [|a l] eqn:Hr; [exact I|].
  rewrite List.Forall_forall in H. apply H. apply in_rev. rewrite Hr. left. reflexivity.
Qed.

(** Every result of [run]: the consumed text with its first and last
    characters within [firsts] and [lasts], empty only if [nullable]. *)
Lemma run_ends r : forall st q,
  In q (run r st) ->
  exists m, snd st = m ++ snd q
            /\ (m = [] -> nullable r = true)
            /\ head_ok (firsts r) m /\ last_ok (lasts r) m.
Proof.
  induction r as [|cs|r1 IH1 r2 IH2|r1 IH1|n cs|n cs]; intros st q Hq; cbn [run] in Hq.
  - destruct (at_boundary st); [|contradiction].
    destruct Hq as [<-|[]]. exists []. repeat split.
  - apply rep_sound in Hq. destruct Hq as (m & Hs & _ & Hl & Hall).
    exists m. split; [exact Hs|]. split; [intros ->; discriminate|].
    split; [apply Forall_head_ok|apply Forall_last_ok]; exact Hall.
  - apply in_flat_map in Hq. destruct Hq as (q1 & Hq1 & Hq2).
    destruct (IH1 _ _ Hq1) as (m1 & Hs1 & Hn1 & Hf1 & Hl1).
    destruct (IH2 _ _ Hq2) as (m2 & Hs2 & Hn2 & Hf2 & Hl2).
    exists (m1 ++ m2). split; [rewrite Hs1, Hs2; apply app_assoc|].
    split; [|split].
    + intros H. apply app_eq_nil in H. destruct H as [H1 H2]. simpl.
      rewrite (Hn1 H1), (Hn2 H2). reflexivity.
    + destruct m1 as [|a m1].
      * simpl. destruct m2 as [|b m2]; [exact I|]. simpl in *.
        rewrite (Hn1 eq_refl), Hf2. apply orb_true_r.
      * simpl in *. rewrite Hf1. reflexivity.
    + apply last_ok_app. destruct m2 as [|b m2].
      * unfold last_ok in *. simpl. destruct (rev m1); [exact I|].
        rewrite (Hn2 eq_refl), Hl1. apply orb_true_r.
      * unfold last_ok in *. destruct (rev (b :: m2)); [exact I|].
        simpl. rewrite Hl2. reflexivity.
  - apply in_app_or in Hq. destruct Hq as [Hq|[<-|[]]].
    + destruct (IH1 _ _ Hq) as (m & Hs & _ & Hf & Hl).
      exists m. repeat split; assumption.
    + exists []. repeat split.
  - apply rep_sound in Hq. destruct Hq as (m & Hs & _ & Hl & Hall).
    exists m. split; [exact Hs|]. split.
    + intros ->. simpl in Hl. subst n. reflexivity.
    + split; [apply Forall_head_ok|apply Forall_last_ok]; exact Hall.
  - apply in_flat_map in Hq. destruct Hq as (q1 & Hq1 & Hq2).
    apply rep_sound in Hq1. destruct Hq1 as (m1 & Hs1 & _ & Hl1 & Hall1).
    apply many_sound in Hq2. destruct Hq2 as (m2 & Hs2 & _ & Hall2).
    exists (m1 ++ m2). split; [simpl in *; rewrite Hs1, Hs2; apply app_assoc|].
    assert (Hall : Forall (fun a => in_class cs a = true) (m1 ++ m2))
      by (apply Forall_app; split; assumption).
    split.
    + intros H. apply app_eq_nil in H. destruct H as [-> _]. simpl in Hl1. subst n. reflexivity.
    + split; [apply Forall_head_ok|apply Forall_last_ok]; exact Hall.
Qed.

Lemma run_ends_bnd r : forall st q,
  ends_bnd r = true -> In q (run r st) -> at_boundary q = true.
Proof.
  induction r as [|cs|r1 IH1 r2 IH2|r1 IH1|n cs|n cs]; intros st q He Hq;
    try discriminate; cbn [run] in Hq.
  - destruct (at_boundary st) eqn:Hb; [|contradiction].
    destruct Hq as [<-|[]]. exact Hb.
  - apply in_flat_map in Hq. destruct Hq as (q1 & _ & Hq2).
    simpl in He. eapply IH2; eassumption.
Qed.

Lemma rep_complete cs : forall a p t,
  Forall (fun x => in_class cs x = true) a ->
  rep (length a) cs p (a ++ t) = [(prev_after p a, t)].
Proof.
  induction a as [|x a IH]; intros p t Hall; [reflexivity|].
  inversion Hall as [|? ? Hx Ha]; subst. simpl. rewrite Hx. apply IH, Ha.
Qed.

Lemma many_complete cs : forall a p t,
  Forall (fun x => in_class cs x = true) a ->
  In (prev_after p a, t) (many cs p (a ++ t)).
Proof.
  induction a as [|x a IH]; intros p t Hall.
  - simpl. destruct t as [|y t]; simpl; [left; reflexivity|].
    destruct (in_class cs y); [apply in_or_app; right|]; left; reflexivity.
  - inversion Hall as [|? ? Hx Ha]; subst. simpl. rewrite Hx.
    apply in_or_app. left. apply IH, Ha.
Qed.

Lemma prev_after_word p p' m :
  word_opt p = word_opt p' -> word_opt (prev_after p m) = word_opt (prev_after p' m).
Proof.
  destruct m as [|a m]; [auto|]. intros _. unfold prev_after. simpl.
  generalize (Some a). induction m as [|b m IH]; intros o; simpl; [reflexivity|apply IH].
Qed.

Lemma head_app_word (m t t' : list ascii) :
  word_opt (head t) = word_opt (head t') ->
  word_opt (head (m ++ t)) = word_opt (head (m ++ t')).
Proof. destruct m; simpl; auto. Qed.

(** Whether an expression matches a text at a position depends on the
    text before and after it only through the kind (word character or
    not) of the two neighbours. *)
Lemma run_transfer r : forall p p' a b rest rest',
  word_opt p = word_opt p' ->
  word_opt (head (b ++ rest)) = word_opt (head (b ++ rest')) ->
  In (prev_after p a, b ++ rest) (run r (p, a ++ b ++ rest)) ->
  In (prev_after p' a, b ++ rest') (run r (p', a ++ b ++ rest')).
Proof.
  induction r as [|cs|r1 IH1 r2 IH2|r1 IH1|n cs|n cs]; intros p p' a b rest rest' Hp Hn Hq;
    cbn [run fst snd] in *.
  - destruct (at_boundary (p, a ++ b ++ rest)) eqn:Hb; [|contradiction].
    destruct Hq as [Hq|[]]. injection Hq as _ Hq.
    assert (a = []) as ->.
    { apply (f_equal (@length _)) in Hq. rewrite length_app in Hq.
      destruct a; [reflexivity|simpl in Hq; lia]. }
    simpl in *. unfold at_boundary in *. simpl in *.
    rewrite <- Hp, <- Hn, Hb. left. reflexivity.
  - pose proof (rep_sound _ _ _ _ _ Hq) as (m & Hs & _ & Hl & Hall). simpl in Hs.
    apply app_inv_tail in Hs. subst m. rewrite <- Hl.
    rewrite rep_complete by exact Hall. left. reflexivity.
  - apply in_flat_map in Hq. destruct Hq as ([q1 s1] & Hq1 & Hq2).
    pose proof (run_sound _ _ _ Hq1) as (m1 & Hs1 & Hp1 & _). simpl in Hs1, Hp1.
    pose proof (run_sound _ _ _ Hq2) as (m2 & Hs2 & Hp2 & _). simpl in Hs2, Hp2.
    subst s1 q1.
    assert (a = m1 ++ m2) as ->
      by (apply (app_inv_tail (b ++ rest)); rewrite <- app_assoc; exact Hs1).
    apply in_flat_map. exists (prev_after p' m1, m2 ++ b ++ rest'). split.
    + rewrite <- app_assoc. rewrite (app_assoc m2 b rest').
      apply (IH1 p p' m1 (m2 ++ b) rest rest' Hp).
      * rewrite <- !app_assoc. apply head_app_word, Hn.
      * rewrite <- !app_assoc in *. exact Hq1.
    + rewrite prev_after_app.
      apply (IH2 (prev_after p m1) (prev_after p' m1) m2 b rest rest').
      * apply prev_after_word, Hp.
      * exact Hn.
      * rewrite <- prev_after_app. exact Hq2.
  - apply in_app_or in Hq. apply in_or_app. destruct Hq as [Hq|[Hq|[]]].
    + left. eapply IH1; eassumption.
    + right. left. injection Hq as _ Hq.
      assert (a = []) as ->.
      { apply (f_equal (@length _)) in Hq. rewrite length_app in Hq.
        destruct a; [reflexivity|simpl in Hq; lia]. }
      reflexivity.
  - pose proof (rep_sound _ _ _ _ _ Hq) as (m & Hs & _ & Hl & Hall). simpl in Hs.
    apply app_inv_tail in Hs. subst m. rewrite <- Hl.
    rewrite rep_complete by exact Hall. left. reflexivity.
  - apply in_flat_map in Hq. destruct Hq as ([q1 s1] & Hq1 & Hq2).
    pose proof (rep_sound _ _ _ _ _ Hq1) as (m1 & Hs1 & Hp1 & Hl1 & Hall1). simpl in Hs1, Hp1.
    pose proof (many_sound _ _ _ _ Hq2) as (m2 & Hs2 & Hp2 & Hall2). simpl in Hs2, Hp2.
    subst s1 q1.
    assert (a = m1 ++ m2) as ->
      by (apply (app_inv_tail (b ++ rest)); rewrite <- app_assoc; exact Hs1).
    apply in_flat_map. exists (prev_after p' m1, m2 ++ b ++ rest'). split.
    + rewrite <- Hl1, <- app_assoc. rewrite rep_complete by exact Hall1. left. reflexivity.
    + simpl. rewrite prev_after_app. apply many_complete, Hall2.
Qed.

Lemma match_at_none r p s : match_at false r p s = None <-> run r (p, s) = [].
Proof.
  unfold match_at. split.
  - intros H. destruct (run r (p, s)) as [|q l]; [reflexivity|discriminate].
  - intros ->. reflexivity.
Qed.

Lemma sub_loop_quiet r repl : forall s p, quiet r p s -> sub_loop r repl 0 p s = s.
Proof.
  induction s as [|a s IH]; intros p Hq.
  - simpl. rewrite (proj2 (match_at_none r p [])); [reflexivity|]. apply (Hq [] []). reflexivity.
  - cbn [sub_loop]. rewrite (proj2 (match_at_none r p (a :: s))) by (apply (Hq [] (a :: s)); reflexivity).
    f_equal. apply IH. intros l t Hs. apply (Hq (a :: l) t). simpl. f_equal. exact Hs.
Qed.

Lemma prev_after_last p m x : prev_after p (m ++ [x]) = Some x.
Proof. unfold prev_after. rewrite fold_left_app. reflexivity. Qed.

Lemma last_ok_word (f : ascii -> bool) p m :
  (forall a, f a = true -> is_word a = true) ->
  m <> [] -> last_ok f m -> word_opt (prev_after p m) = true.
Proof.
  intros Hf Hm Hl. destruct (rev m) as [|x l] eqn:Hr.
  - apply (f_equal (@rev _)) in Hr. rewrite rev_involutive in Hr. contradiction.
  - apply (f_equal (@rev _)) in Hr. rewrite rev_involutive in Hr. simpl in Hr.
    unfold last_ok in Hl. rewrite Hr, rev_app_distr in Hl. simpl in Hl.
    rewrite Hr, prev_after_last. simpl. apply Hf, Hl.
Qed.

Lemma prev_after_word_cons o x k :
  word_opt (prev_after None (x :: k)) = word_opt (prev_after o (x :: k)).
Proof. unfold prev_after. simpl. reflexivity. Qed.

Section Idempotent.

Variable r : regex.
Variable repl : list ascii -> list ascii.
Hypothesis Hmin : 0 < min_len r.
Hypothesis Hend : ends_bnd r = true.
Hypothesis Hlast : forall a, lasts r a = true -> is_word a = true.
Hypothesis Hmask : forall h, h <> [] -> mask_ok r (repl h) = true.

Lemma run_consumes p s q :
  In q (run r (p, s)) ->
  exists m, s = m ++ snd q /\ m <> [] /\ fst q = prev_after p m
            /\ Forall (fun a => eats r a = true) m
            /\ head_ok (firsts r) m /\ last_ok (lasts r) m.
Proof using Hmin.
  intros Hq.
  destruct (run_sound _ _ _ Hq) as (m & Hs & Hp & Hl & Hall).
  destruct (run_ends _ _ _ Hq) as (m' & Hs' & _ & Hf & Hla).
  simpl in Hs, Hs', Hp. rewrite Hs in Hs'. apply app_inv_tail in Hs'. subst m'.
  exists m. repeat split; try assumption.
  intros ->. simpl in Hl. lia.
Qed.

(** A text the expression could consume at the start of the redacted
    text is also at the start of the original, followed there by a
    character of the same kind, unless a mask follows it. *)
Lemma Redacted_common p s out :
  Redacted r repl p s out ->
  forall m t, out = m ++ t -> Forall (fun a => eats r a = true) m ->
  exists t0, s = m ++ t0
             /\ (word_opt (head t) = word_opt (head t0) \/ word_opt (head t) = true).
Proof using Hmask.
  induction 1 as [p|p a s out Hno Hred IH|p h s out Hh Hhit Hred IH]; intros m t Hout Hall.
  - destruct m; [|discriminate]. simpl in Hout. subst t. exists []. split; [reflexivity|left; reflexivity].
  - destruct m as [|b m].
    + simpl in Hout. subst t. exists (a :: s). split; [reflexivity|left; reflexivity].
    + simpl in Hout. injection Hout as <- Hout.
      inversion Hall as [|? ? _ Hall']; subst.
      destruct (IH m t eq_refl Hall') as (t0 & -> & Hw).
      exists t0. split; [reflexivity|exact Hw].
  - pose proof (Hmask h Hh) as Hk. unfold mask_ok in Hk.
    destruct (repl h) as [|x k] eqn:Hr; [discriminate|].
    apply andb_prop in Hk. destruct Hk as [Hk _].
    apply andb_prop in Hk. destruct Hk as [Hk _].
    apply andb_prop in Hk. destruct Hk as [Hx Hw].
    destruct m as [|b m].
    + simpl in Hout. subst t. exists (h ++ s). split; [reflexivity|]. right. simpl. exact Hw.
    + simpl in Hout. injection Hout as <- _.
      inversion Hall as [|? ? Hb _]; subst. rewrite Hb in Hx. discriminate.
Qed.

Lemma Redacted_quiet p s out :
  Redacted r repl p s out ->
  forall p', word_opt p' = word_opt p -> quiet r p' out.
Proof using Hmin Hend Hlast Hmask.
  induction 1 as [p|p a s out Hno Hred IH|p h s out Hh Hhit Hred IH]; intros p' Hp l t Hout.
  - destruct l; [|discriminate]. destruct t; [|discriminate]. simpl.
    destruct (run r (p', [])) as [|q qs] eqn:Hrun; [reflexivity|].
    assert (Hq : In q (run r (p', []))) by (rewrite Hrun; left; reflexivity).
    destruct (run_consumes _ _ _ Hq) as (m & Hs & Hm & _). destruct m; [congruence|discriminate].
  - destruct l as [|b l].
    + simpl in *. subst t.
      destruct (run r (p', a :: out)) as [|q qs] eqn:Hrun; [reflexivity|exfalso].
      assert (Hq : In q (run r (p', a :: out))) by (rewrite Hrun; left; reflexivity).
      destruct (run_consumes _ _ _ Hq) as (m & Hs & Hm & Hfst & Hall & _ & Hla).
      destruct (Redacted_common _ _ _ (Redacted_keep _ _ _ _ _ _ Hno Hred) m (snd q) Hs Hall)
        as (t0 & Hs0 & [Hw|Hw]).
      * apply match_at_none in Hno.
        assert (Hin : In (prev_after p m, [] ++ t0) (run r (p, m ++ [] ++ t0))).
        { apply (run_transfer r p' p m [] (snd q) t0 Hp Hw). simpl.
          rewrite <- Hs, <- Hfst. destruct q; exact Hq. }
        simpl in Hin. rewrite <- Hs0, Hno in Hin. exact Hin.
      * pose proof (run_ends_bnd _ _ _ Hend Hq) as Hb. unfold at_boundary in Hb.
        rewrite Hfst, Hw, (last_ok_word _ p' m Hlast Hm Hla) in Hb. discriminate.
    + simpl in Hout. injection Hout as <- Hout. simpl.
      apply (IH (Some a) eq_refl l t Hout).
  - pose proof (Hmask h Hh) as Hk.
    assert (Hword : word_opt (prev_after p h) = true).
    { apply match_at_sound in Hhit. destruct Hhit as (m & rest & Hs & Hl & _ & _ & Hin).
      assert (m = h) as ->.
      { apply (f_equal (firstn (length h))) in Hs.
        rewrite firstn_app, Nat.sub_diag, firstn_all in Hs. simpl in Hs. rewrite app_nil_r in Hs.
        rewrite <- Hl in Hs. rewrite firstn_app, Nat.sub_diag, firstn_all in Hs. simpl in Hs.
        rewrite app_nil_r in Hs. congruence. }
      destruct (run_consumes _ _ _ Hin) as (m' & Hs' & _ & _ & _ & _ & Hla).
      simpl in Hs'. rewrite Hs in Hs'. apply app_inv_tail in Hs'. subst m'.
      apply (last_ok_word _ p h Hlast Hh Hla). }
    assert (Hafter : forall o, word_opt (prev_after o (repl h)) = true).
    { intros o. unfold mask_ok in Hk. destruct (repl h) as [|x k] eqn:Hr; [discriminate|].
      apply andb_prop in Hk. destruct Hk as [Hk _]. apply andb_prop in Hk. destruct Hk as [_ Hk].
      rewrite <- Hk. apply prev_after_word_cons. }
    apply app_eq_app in Hout. destruct Hout as (k & [[Hl Ht]|[Hl Ht]]).
    + (* the position is within the mask, or right after it *)
      destruct k as [|y k].
      * rewrite app_nil_r in Hl. simpl in Ht. subst l t.
        apply (IH (prev_after p' (repl h)) ltac:(rewrite Hafter, Hword; reflexivity) [] out eq_refl).
      * destruct (run r (prev_after p' l, t)) as [|q qs] eqn:Hrun; [reflexivity|exfalso].
        assert (Hq : In q (run r (prev_after p' l, t))) by (rewrite Hrun; left; reflexivity).
        destruct (run_consumes _ _ _ Hq) as (m & Hs & Hm & _ & _ & Hf & _).
        destruct m as [|z m]; [congruence|]. rewrite Ht in Hs. simpl in Hs. injection Hs as <- _.
        simpl in Hf. unfold mask_ok in Hk. rewrite Hl in Hk.
        destruct (l ++ y :: k) as [|x k'] eqn:Hlk; [discriminate|].
        apply andb_prop in Hk. destruct Hk as [_ Hk].
        rewrite forallb_forall in Hk.
        assert (Hy : In y (x :: k')) by (rewrite <- Hlk; apply in_or_app; right; left; reflexivity).
        apply Hk in Hy. rewrite Hf in Hy. discriminate.
    + (* the position is after the mask *)
      subst l. rewrite prev_after_app.
      apply (IH (prev_after p' (repl h)) ltac:(rewrite Hafter, Hword; reflexivity) k t Ht).
Qed.

(** Replacing again changes nothing. *)
Lemma sub_loop_idempotent s :
  sub_loop r repl 0 None (sub_loop r repl 0 None s) = sub_loop r repl 0 None s.
Proof using Hmin Hend Hlast Hmask.
  apply sub_loop_quiet.
  apply (Redacted_quiet None s); [|reflexivity].
  apply (sub_loop_redacted r repl Hmin (length s)). lia.
Qed.

End Idempotent.

(** ** Redaction *)

Lemma chars_re_sub r repl text :
  chars (re_sub r repl text) = sub_loop r repl 0 None (chars text).
Proof. unfold re_sub, chars. apply list_ascii_of_string_of_list_ascii. Qed.

Lemma re_sub_redacted r repl text :
  0 < min_len r -> Redacted r repl None (chars text) (chars (re_sub r repl text)).
Proof.
  intros Hmin. rewrite chars_re_sub.
  apply (sub_loop_redacted r repl Hmin (length (chars text))). lia.
Qed.

Lemma length_chars (s : string) : length (chars s) = String.length s.
Proof. induction s as [|a s IH]; simpl; [reflexivity|]. f_equal. exact IH. Qed.

Lemma Redacted_length r repl p s out :
  (forall m, length (repl m) = length m) ->
  Redacted r repl p s out -> length out = length s.
Proof.
  intros Hrepl H. induction H as [p|p a s out _ _ IH|p m s out _ _ _ IH].
  - reflexivity.
  - simpl. f_equal. exact IH.
  - rewrite !length_app, Hrepl, IH. reflexivity.
Qed.

(** A match of the account pattern is a run of at least eight digits. *)
Lemma account_match_digits adv p m s :
  match_at adv account_pattern p (m ++ s) = Some (length m) ->
  8 <= length m /\ Forall (fun a => is_digit a = true) m.
Proof.
  intros H. apply match_at_sound in H.
  destruct H as (m' & rest & Hs & Hl & Hmin & Hall & _).
  assert (m' = m) as ->.
  { apply (f_equal (firstn (length m))) in Hs.
    rewrite firstn_app, Nat.sub_diag, firstn_all in Hs. simpl in Hs.
    rewrite app_nil_r in Hs. rewrite <- Hl in Hs.
    rewrite firstn_app, Nat.sub_diag, firstn_all in Hs. simpl in Hs.
    rewrite app_nil_r in Hs. congruence. }
  split; [exact Hmin|].
  eapply Forall_impl; [exact Hall|]. intros a Ha. simpl in Ha.
  rewrite !orb_false_r in Ha. exact Ha.
Qed.

(** C4. Redacting a text cell replaces the matches of the category's
    pattern and nothing else: every character outside a match is kept in
    place, every match is replaced by the category's mask. For SSN, Phone
    and Email the mask is a fixed literal; for AccountNumber it is one [X]
    per character of the match, a match is a run of at least eight digits,
    and so the redacted text has the length of the original. *)
Theorem redact_pii_replaces_matches_only (text : string) :
  (exists out, redact_pii (Text text) "ssn" = Text out
     /\ Redacted ssn_pattern (fun _ => chars "XXX-XX-XXXX") None (chars text) (chars out))
  /\ (exists out, redact_pii (Text text) "phone" = Text out
     /\ Redacted phone_pattern (fun _ => chars "XXX-XXX-XXXX") None (chars text) (chars out))
  /\ (exists out, redact_pii (Text text) "email" = Text out
     /\ Redacted email_pattern (fun _ => chars "REDACTED@EMAIL.COM") None (chars text) (chars out))
  /\ (exists out, redact_pii (Text text) "account" = Text out
     /\ Redacted account_pattern (fun m => repeat "X"%char (length m)) None
          (chars text) (chars out)
     /\ String.length out = String.length text)
  /\ (forall p m s, match_at false account_pattern p (m ++ s) = Some (length m) ->
        8 <= length m /\ Forall (fun a => is_digit a = true) m).
Proof.
  repeat split.
  - eexists. split; [reflexivity|]. apply re_sub_redacted. simpl. lia.
  - eexists. split; [reflexivity|]. apply re_sub_redacted. simpl. lia.
  - eexists. split; [reflexivity|]. apply re_sub_redacted. simpl. lia.
  - eexists. split; [reflexivity|]. split.
    + apply re_sub_redacted. simpl. lia.
    + rewrite <- !length_chars.
      eapply Redacted_length; [|apply re_sub_redacted; simpl; lia].
      intros m. apply repeat_length.
  - apply account_match_digits in H. exact (proj1 H).
  - apply account_match_digits in H. exact (proj2 H).
Qed.

(** ** Redacting twice *)

Lemma ascii_all (f : ascii -> bool) :
  forallb f (map ascii_of_nat (seq 0 256)) = true -> forall a, f a = true.
Proof.
  intros H a. rewrite forallb_forall in H. apply H.
  rewrite <- (ascii_nat_embedding a). apply in_map. apply in_seq.
  pose proof (nat_ascii_bounded a). lia.
Qed.

Lemma lasts_word_ssn a : lasts ssn_pattern a = true -> is_word a = true.
Proof.
  intros H.
  assert (Hall : forallb (fun a => implb (lasts ssn_pattern a) (is_word a))
                   (map ascii_of_nat (seq 0 256)) = true) by (vm_compute; reflexivity).
  pose proof (ascii_all _ Hall a) as Hi. cbv beta in Hi. rewrite H in Hi. exact Hi.
Qed.

Lemma lasts_word_phone a : lasts phone_pattern a = true -> is_word a = true.
Proof.
  intros H.
  assert (Hall : forallb (fun a => implb (lasts phone_pattern a) (is_word a))
                   (map ascii_of_nat (seq 0 256)) = true) by (vm_compute; reflexivity).
  pose proof (ascii_all _ Hall a) as Hi. cbv beta in Hi. rewrite H in Hi. exact Hi.
Qed.

Lemma lasts_word_account a : lasts account_pattern a = true -> is_word a = true.
Proof.
  intros H.
  assert (Hall : forallb (fun a => implb (lasts account_pattern a) (is_word a))
                   (map ascii_of_nat (seq 0 256)) = true) by (vm_compute; reflexivity).
  pose proof (ascii_all _ Hall a) as Hi. cbv beta in Hi. rewrite H in Hi. exact Hi.
Qed.

Lemma account_mask_ok (h : list ascii) :
  h <> [] -> mask_ok account_pattern (account_mask h) = true.
Proof.
  unfold account_mask. destruct h as [|a h]; [congruence|]. intros _.
  simpl length. generalize (length h). intros n.
  assert (Hp : forall o, prev_after o (repeat "X"%char (S n)) = Some "X"%char).
  { induction n as [|n IH]; intros o; [reflexivity|].
    change (repeat "X"%char (S (S n))) with ("X"%char :: repeat "X"%char (S n)).
    unfold prev_after in *. cbn [fold_left]. apply IH. }
  unfold mask_ok. cbn [repeat]. change ("X"%char :: repeat "X"%char n) with (repeat "X"%char (S n)).
  rewrite Hp. simpl negb. simpl is_word. simpl word_opt. cbn [andb].
  apply forallb_forall. intros y Hy. apply repeat_spec in Hy. subst y. reflexivity.
Qed.

Lemma re_sub_idempotent r repl text :
  0 < min_len r -> ends_bnd r = true ->
  (forall a, lasts r a = true -> is_word a = true) ->
  (forall h, h <> [] -> mask_ok r (repl h) = true) ->
  re_sub r repl (re_sub r repl text) = re_sub r repl text.
Proof.
  intros Hmin Hend Hlast Hmask. unfold re_sub at 1. rewrite chars_re_sub.
  rewrite (sub_loop_idempotent r repl Hmin Hend Hlast Hmask). reflexivity.
Qed.

(** C5, as the code has it. For SSN, Phone and AccountNumber, redacting
    a value that has been redacted for the same category gives it back
    unchanged. (Not so for Email, whose mask is itself an address and can
    join the text next to it.) *)
Theorem redaction_idempotent_ssn_phone_account (value : cell) :
  redact_pii (redact_pii value "ssn") "ssn" = redact_pii value "ssn"
  /\ redact_pii (redact_pii value "phone") "phone" = redact_pii value "phone"
  /\ redact_pii (redact_pii value "account") "account" = redact_pii value "account".
Proof.
  assert (Hssn : forall t, re_sub ssn_pattern ssn_mask (re_sub ssn_pattern ssn_mask t)
                           = re_sub ssn_pattern ssn_mask t).
  { intros t. apply re_sub_idempotent; [simpl; lia|reflexivity|apply lasts_word_ssn|].
    intros h _. reflexivity. }
  assert (Hphone : forall t, re_sub phone_pattern phone_mask (re_sub phone_pattern phone_mask t)
                             = re_sub phone_pattern phone_mask t).
  { intros t. apply re_sub_idempotent; [simpl; lia|reflexivity|apply lasts_word_phone|].
    intros h _. reflexivity. }
  assert (Hacct : forall t, re_sub account_pattern account_mask (re_sub account_pattern account_mask t)
                            = re_sub account_pattern account_mask t).
  { intros t. apply re_sub_idempotent; [simpl; lia|reflexivity|apply lasts_word_account|].
    apply account_mask_ok. }
  destruct value as [s|q|]; unfold redact_pii; simpl;
    rewrite ?Hssn, ?Hphone, ?Hacct; repeat split.
Qed.

(** ** The scanner *)

Lemma scan_value_classify (value : cell) :
  scan_value value
  = option_map (fun c => (c, redact_pii value (pii_type_of c))) (classify value).
Proof.
  unfold scan_value, classify. simpl.
  destruct (detect_ssn value); [reflexivity|].
  destruct (detect_phone value); [reflexivity|].
  destruct (detect_email value); [reflexivity|].
  destruct (detect_account_number value); reflexivity.
Qed.

Lemma scan_column_classify (values : list cell) :
  scan_column values
  = (observed values,
     map (fun v => match classify v with
                   | Some c => redact_pii v (pii_type_of c)
                   | None => v
                   end) values).
Proof.
  induction values as [|v values IH]; [reflexivity|].
  cbn [scan_column]. rewrite IH, scan_value_classify.
  unfold observed. cbn [omap list_omap map].
  destruct (classify v); reflexivity.
Qed.

(** C3. The scanner tries SSN, Phone, Email, AccountNumber in this order
    and settles on the first category whose detector accepts the value,
    whatever the later detectors would say: the label it records and the
    redaction it writes are those of [classify]. A cell no detector
    accepts gets no label and keeps its value. *)
Theorem scan_follows_priority_order (value : cell) (values : list cell) :
  (detect_ssn value = true -> scan_value value = Some (SSN, redact_pii value "ssn"))
  /\ (detect_ssn value = false -> detect_phone value = true ->
      scan_value value = Some (Phone, redact_pii value "phone"))
  /\ (detect_ssn value = false -> detect_phone value = false ->
      detect_email value = true ->
      scan_value value = Some (Email, redact_pii value "email"))
  /\ (detect_ssn value = false -> detect_phone value = false ->
      detect_email value = false -> detect_account_number value = true ->
      scan_value value = Some (AccountNumber, redact_pii value "account"))
  /\ (detect_ssn value = false -> detect_phone value = false ->
      detect_email value = false -> detect_account_number value = false ->
      scan_value value = None)
  /\ scan_value value
     = option_map (fun c => (c, redact_pii value (pii_type_of c))) (classify value)
  /\ fst (scan_column values) = omap classify values
  /\ snd (scan_column values)
     = map (fun v => match classify v with
                     | Some c => redact_pii v (pii_type_of c)
                     | None => v
                     end) values.
Proof.
  unfold scan_value.
  repeat split; try (intros; repeat match goal with H : _ = _ |- _ => rewrite H end; reflexivity).
  - apply scan_value_classify.
  - rewrite scan_column_classify. reflexivity.
  - rewrite scan_column_classify. reflexivity.
Qed.

(** ** The PII report *)

Lemma scan_columns_accepted (cols : list (string * list cell)) :
  Forall (fun col => refused_column col = false) cols ->
  scan_columns cols
  = (map (fun col => (fst col, redacted_cells (snd col))) cols,
     inr (omap report_entry cols,
          sum_list (map (fun col => length (observed (snd col))) cols))).
Proof.
  induction 1 as [|[name values] cols Hcol _ IH]; [reflexivity|].
  cbn [scan_columns]. rewrite IH, (scan_column_classify values).
  unfold refused_column in Hcol. cbn [fst snd] in Hcol.
  cbn [omap list_omap map fst snd]. unfold report_entry. cbn [fst snd].
  destruct (observed values) as [|c l]; [reflexivity|].
  rewrite andb_true_r in Hcol. rewrite Hcol. reflexivity.
Qed.

Lemma scan_columns_refused (before after : list (string * list cell))
    (col : string * list cell) :
  Forall (fun c => refused_column c = false) before ->
  refused_column col = true ->
  scan_columns (before ++ col :: after)
  = (map (fun c => (fst c, redacted_cells (snd c))) before ++ col :: after, inl TypeError).
Proof.
  intros Hbefore Hcol.
  induction Hbefore as [|[name values] before Hc _ IH].
  - destruct col as [name values]. cbn [app map scan_columns].
    rewrite (scan_column_classify values).
    unfold refused_column in Hcol. cbn [fst snd] in Hcol.
    destruct (observed values) as [|c l]; [rewrite andb_false_r in Hcol; discriminate|].
    rewrite andb_true_r in Hcol. rewrite Hcol. reflexivity.
  - cbn [app map scan_columns fst snd]. rewrite IH, (scan_column_classify values).
    unfold refused_column in Hc. cbn [fst snd] in Hc.
    destruct (observed values) as [|c l]; [reflexivity|].
    rewrite andb_true_r in Hc. rewrite Hc. reflexivity.
Qed.

Lemma first_refused (cols : list (string * list cell)) :
  Forall (fun c => refused_column c = false) cols
  \/ exists before col after,
       cols = before ++ col :: after
       /\ Forall (fun c => refused_column c = false) before
       /\ refused_column col = true.
Proof.
  induction cols as [|c cols IH]; [left; constructor|].
  destruct (refused_column c) eqn:Hc.
  - right. exists [], c, cols. split; [reflexivity|]. split; [constructor|exact Hc].
  - destruct IH as [IH|(before & col & after & -> & Hb & Hcol)].
    + left. constructor; assumption.
    + right. exists (c :: before), col, after.
      split; [reflexivity|]. split; [constructor; assumption|exact Hcol].
Qed.

Lemma analyze_data_accepted (df : DataFrame) :
  Forall (fun c => refused_column c = false) (columns df) ->
  analyze_data df
  = let df' := mkDF (nrows df)
                 (map (fun col => (fst col, redacted_cells (snd col))) (columns df)) in
    match detect_duplicate_payments df' with
    | inl e => (df', inl e)
    | inr duplicate =>
        (df',
         inr {| pii_detected := omap report_entry (columns df);
                pii_count := sum_list (map (fun col => length (observed (snd col)))
                                         (columns df));
                anomalies := duplicate ++ detect_amount_outliers df'
                             ++ detect_negative_amounts df';
                summary_stats := summary_statistics df';
                redacted_data := df' |})
    end.
Proof.
  intros H. unfold analyze_data. rewrite (scan_columns_accepted _ H). reflexivity.
Qed.

Lemma analyze_data_refused (df : DataFrame) (before after : list (string * list cell))
    (col : string * list cell) :
  columns df = before ++ col :: after ->
  Forall (fun c => refused_column c = false) before ->
  refused_column col = true ->
  analyze_data df
  = (mkDF (nrows df)
       (map (fun c => (fst c, redacted_cells (snd c))) before ++ col :: after),
     inl TypeError).
Proof.
  intros Hcols Hb Hcol. unfold analyze_data.
  rewrite Hcols, (scan_columns_refused _ _ _ Hb Hcol). reflexivity.
Qed.

Lemma size_list_to_set_le (l : list PIICategory) :
  size (list_to_set l : gset PIICategory) <= length l.
Proof.
  induction l as [|x l IH].
  - rewrite list_to_set_nil, size_empty. simpl. lia.
  - rewrite list_to_set_cons, size_union_alt, size_singleton. simpl.
    assert (size (list_to_set l ∖ {[x]} : gset PIICategory) <= size (list_to_set l : gset PIICategory)).
    { apply subseteq_size, subseteq_difference_l. reflexivity. }
    lia.
Qed.

Lemma report_entries_le (cols : list (string * list cell)) :
  sum_list (map (fun e => size (snd e)) (omap report_entry cols))
  <= sum_list (map (fun col => length (observed (snd col))) cols).
Proof.
  induction cols as [|col cols IH]; [simpl; lia|].
  cbn [omap list_omap map sum_list sum_list_with]. unfold report_entry at 1.
  destruct (observed (snd col)) as [|c l] eqn:Hobs.
  - simpl. exact IH.
  - cbn [map sum_list sum_list_with snd].
    pose proof (size_list_to_set_le (c :: l)). simpl in *. lia.
Qed.

Lemma report_entries_sets (cols : list (string * list cell)) :
  Forall (fun e => exists values, In (fst e, values) cols
                   /\ forall c, c ∈ snd e <-> exists v, In v values /\ classify v = Some c)
    (omap report_entry cols).
Proof.
  induction cols as [|[name values] cols IH]; [constructor|].
  cbn [omap list_omap]. unfold report_entry at 1. cbn [fst snd].
  assert (Hrest : Forall (fun e => exists values0, In (fst e, values0) ((name, values) :: cols)
                   /\ forall c, c ∈ snd e <-> exists v, In v values0 /\ classify v = Some c)
    (omap report_entry cols)).
  { eapply Forall_impl; [exact IH|]. intros e (vs & Hin & Hc). exists vs. split; [right; exact Hin|exact Hc]. }
  destruct (observed values) as [|c l] eqn:Hobs; [exact Hrest|].
  constructor; [|exact Hrest].
  exists values. cbn [fst snd]. split; [left; reflexivity|].
  intros c'. rewrite <- Hobs, elem_of_list_to_set. unfold observed.
  rewrite list_elem_of_omap. split.
  - intros (v & Hv & Hc). exists v. split; [apply list_elem_of_In; exact Hv|exact Hc].
  - intros (v & Hv & Hc). exists v. split; [apply list_elem_of_In; exact Hv|exact Hc].
Qed.

(** C9. In the report of a run that returns, the entry of a column is the
    set of the categories observed in that column (a category is in it
    exactly when some cell of the column is classified so), only the
    columns with an observation have an entry, the redaction count is the
    number of classified cells, and the entries of all columns together
    are no more than the redaction count. *)
Theorem pii_report_sets_within_count (df : DataFrame) :
  match snd (analyze_data df) with
  | inl _ => True
  | inr r =>
      Forall (fun e => exists values, In (fst e, values) (columns df)
                /\ forall c, c ∈ snd e <-> exists v, In v values /\ classify v = Some c)
        (pii_detected r)
      /\ map fst (pii_detected r)
         = map fst (List.filter (fun col => match observed (snd col) with
                                            | [] => false
                                            | _ :: _ => true
                                            end) (columns df))
      /\ pii_count r = sum_list (map (fun col => length (observed (snd col))) (columns df))
      /\ sum_list (map (fun e => size (snd e)) (pii_detected r)) <= pii_count r
  end.
Proof.
  destruct (first_refused (columns df)) as [Hok|(before & col & after & Hcols & Hb & Hcol)];
    [|rewrite (analyze_data_refused df _ _ _ Hcols Hb Hcol); exact I].
  rewrite (analyze_data_accepted df Hok). cbv zeta.
  destruct (detect_duplicate_payments _); [exact I|].
  cbn [snd pii_detected pii_count].
  repeat split.
  - apply report_entries_sets.
  - clear Hok. induction (columns df) as [|[name values] cols IH]; [reflexivity|].
    cbn [omap list_omap List.filter]. unfold report_entry at 1. cbn [fst snd].
    destruct (observed values); simpl; [exact IH|]. f_equal. exact IH.
  - apply report_entries_le.
Qed.

(** ** Severities *)

Lemma duplicate_anomalies_severity duplicates :
  match duplicate_anomalies duplicates with
  | inl _ => True
  | inr l => Forall high_or_medium l
  end.
Proof.
  induction duplicates as [|[[vendor amount] count] rest IH]; simpl.
  - constructor.
  - destruct (format_amount amount); [exact I|].
    destruct (duplicate_anomalies rest); [exact I|].
    constructor; [right; reflexivity|exact IH].
Qed.

Lemma detect_duplicate_payments_severity df :
  match detect_duplicate_payments df with
  | inl _ => True
  | inr l => Forall high_or_medium l
  end.
Proof.
  unfold detect_duplicate_payments.
  destruct (has_column "amount" df && has_column "vendor" df).
  - apply duplicate_anomalies_severity.
  - constructor.
Qed.

Lemma detect_amount_outliers_severity df :
  Forall high_or_medium (detect_amount_outliers df).
Proof.
  unfold detect_amount_outliers.
  destruct (has_column "amount" df); [|constructor].
  destruct (0 <? _)%nat; [|constructor].
  apply List.Forall_forall. intros a Ha. apply in_map_iff in Ha.
  destruct Ha as (x & <- & _). unfold high_or_medium, outlier_anomaly. cbn [severity].
  destruct (SFltb _ _); [left|right]; reflexivity.
Qed.

Lemma detect_negative_amounts_severity df :
  Forall high_or_medium (detect_negative_amounts df).
Proof.
  unfold detect_negative_amounts.
  destruct (has_column "amount" df); [|constructor].
  apply List.Forall_forall. intros a Ha. apply in_map_iff in Ha.
  destruct Ha as (x & <- & _). right. reflexivity.
Qed.

(** C10. Every anomaly a detector emits, and so every anomaly in the
    result of a run that returns, has severity High or Medium. *)
Theorem anomalies_high_or_medium (df : DataFrame) :
  match detect_duplicate_payments df with
  | inl _ => True
  | inr l => Forall high_or_medium l
  end
  /\ Forall high_or_medium (detect_amount_outliers df)
  /\ Forall high_or_medium (detect_negative_amounts df)
  /\ match snd (analyze_data df) with
     | inl _ => True
     | inr r => Forall (fun a => severity a = High \/ severity a = Medium) (anomalies r)
     end.
Proof.
  split; [apply detect_duplicate_payments_severity|].
  split; [apply detect_amount_outliers_severity|].
  split; [apply detect_negative_amounts_severity|].
  unfold analyze_data.
  destruct (scan_columns (columns df)) as [written [e|[detected count]]]; [exact I|].
  pose proof (detect_duplicate_payments_severity (mkDF (nrows df) written)) as Hd.
  destruct (detect_duplicate_payments _); [exact I|].
  cbn [snd anomalies]. rewrite !Forall_app.
  split; [exact Hd|]. split.
  - apply detect_amount_outliers_severity.
  - apply detect_negative_amounts_severity.
Qed.

(** ** Summary statistics *)












(** ** Duplicate payments *)

Lemma duplicate_anomalies_numeric (duplicates : list ((cell * cell) * nat)) :
  (forall g, In g duplicates -> exists q, snd (fst g) = Number q) ->
  duplicate_anomalies duplicates = inr (map duplicate_anomaly duplicates).
Proof.
  induction duplicates as [|[[vendor amount] count] rest IH]; intros Hnum; [reflexivity|].
  cbn [duplicate_anomalies].
  destruct (Hnum _ (or_introl eq_refl)) as [q Hq]. simpl in Hq. subst amount.
  cbn [format_amount]. rewrite IH by (intros g Hg; apply Hnum; right; exact Hg).
  reflexivity.
Qed.

Lemma filter_map_comm {A B} (P : B -> bool) (f : A -> B) (l : list A) :
  List.filter P (map f l) = map f (List.filter (fun x => P (f x)) l).
Proof.
  induction l as [|x l IH]; [reflexivity|]. simpl.
  destruct (P (f x)); simpl; rewrite IH; reflexivity.
Qed.

Lemma In_group_list (keys : list (cell * cell)) (k : cell * cell) :
  In k (merge_sort key_le (remove_dups keys)) <-> In k keys.
Proof.
  rewrite <- !list_elem_of_In. rewrite merge_sort_Permutation.
  apply elem_of_remove_dups.
Qed.

Lemma NoDup_group_list (keys : list (cell * cell)) :
  NoDup (merge_sort key_le (remove_dups keys)).
Proof. rewrite merge_sort_Permutation. apply NoDup_remove_dups. Qed.

(** C7, as the code has it. With a vendor and an amount column, and the
    amount of every repeated pair a number, the detector returns one
    anomaly per group of more than one row and nothing else: the groups
    are the distinct (vendor, amount) pairs of the rows that have both
    cells present, the size of a group is the number of such rows with
    exactly that pair, and the anomaly of a group has severity Medium,
    [records_affected] the size, and a description made of the amount
    with two decimals, the vendor and the size. Rows with a missing vendor
    or amount belong to no group. *)
Theorem duplicate_payments_one_per_group (df : DataFrame) :
  has_column "amount" df && has_column "vendor" df = true ->
  let rows := combine (column "vendor" df) (column "amount" df) in
  let keys := group_keys df in
  (forall k, In k keys -> 1 < group_size keys k -> exists q, snd k = Number q) ->
  (forall k, In k keys <-> In k rows /\ fst k <> Missing /\ snd k <> Missing)
  /\ (forall k, group_size keys k = length (List.filter (fun k' => bool_decide (k' = k)) rows)
                \/ fst k = Missing \/ snd k = Missing)
  /\ exists groups,
       detect_duplicate_payments df
       = inr (map (fun g =>
                {| type := DuplicatePayment;
                   description := ("$" ++ match snd (fst g) with
                                          | Number q => format_2f q
                                          | _ => "nan"
                                          end
                                   ++ " payment to " ++ str (fst (fst g))
                                   ++ " appears " ++ nat_str (snd g) ++ " times")%string;
                   severity := Medium;
                   records_affected := snd g |}) groups)
       /\ NoDup (map fst groups)
       /\ forall k n, In (k, n) groups <-> In k keys /\ n = group_size keys k /\ 1 < n.
Proof.
  clear to_number. intros Hcols rows keys Hnum.
  split; [|split].
  - intros k. unfold keys, group_keys. fold rows. rewrite filter_In.
    destruct k as [[s|q|] [t|x|]]; simpl; intuition congruence.
  - intros k. unfold group_size, keys, group_keys. fold rows.
    destruct (isna (fst k)) eqn:Hv; [right; left; destruct (fst k); try discriminate; reflexivity|].
    destruct (isna (snd k)) eqn:Ha; [right; right; destruct (snd k); try discriminate; reflexivity|].
    left. f_equal. clear -Hv Ha. induction rows as [|r rows IH]; [reflexivity|].
    simpl. destruct (bool_decide (r = k)) eqn:Hr.
    + apply bool_decide_eq_true in Hr. subst r. rewrite Hv, Ha. simpl.
      rewrite bool_decide_eq_true_2 by reflexivity. f_equal. exact IH.
    + destruct (negb (isna (fst r)) && negb (isna (snd r))); simpl; [rewrite Hr|]; exact IH.
  - exists (List.filter (fun g => (1 <? snd g)%nat)
              (map (fun k => (k, group_size keys k)) (merge_sort key_le (remove_dups keys)))).
    split; [|split].
    + unfold detect_duplicate_payments. rewrite Hcols. unfold groupby_size. fold keys.
      apply duplicate_anomalies_numeric.
      intros [k n] Hg. apply filter_In in Hg. destruct Hg as [Hg Hn].
      apply in_map_iff in Hg. destruct Hg as (k' & [= <- <-] & Hk).
      cbn [snd] in Hn. apply Nat.ltb_lt in Hn. apply (proj1 (In_group_list _ _)) in Hk.
      cbn [fst snd]. apply Hnum; assumption.
    + rewrite filter_map_comm, map_map. simpl. rewrite map_id.
      apply NoDup_ListNoDup, List.NoDup_filter, NoDup_ListNoDup, NoDup_group_list.
    + intros k n. rewrite filter_In, in_map_iff. simpl. rewrite Nat.ltb_lt. split.
      * intros [(k' & [= <- <-] & Hk) Hn]. apply (proj1 (In_group_list _ _)) in Hk.
        split; [exact Hk|split; [reflexivity|exact Hn]].
      * intros (Hk & -> & Hn). split; [|exact Hn].
        exists k. split; [reflexivity|]. apply (proj2 (In_group_list _ _)), Hk.
Qed.

(** ** Amount outliers *)

(** *** The order of doubles *)

Lemma SFcompare_refl (x : spec_float) : x <> S754_nan -> SFcompare x x = Some Eq.
Proof.
  destruct x as [s|s| |s m e]; intros H; try reflexivity; try congruence.
  - destruct s; reflexivity.
  - simpl. rewrite Z.compare_refl.
    change (Pos.compare_cont Eq m m) with (Pos.compare m m). rewrite Pos.compare_refl.
    destruct s; reflexivity.
Qed.

Lemma SFcompare_antisym (x y : spec_float) :
  SFcompare y x = option_map CompOpp (SFcompare x y).
Proof.
  destruct x as [sx|sx| |sx mx ex], y as [sy|sy| |sy my ey]; simpl;
    try destruct sx; try destruct sy; try reflexivity;
    rewrite (Z.compare_antisym ex ey);
    change (Pos.compare_cont Eq ?a ?b) with (Pos.compare a b);
    rewrite (Pos.compare_antisym mx my);
    destruct (ex ?= ey)%Z; simpl; try reflexivity;
    destruct (mx ?= my)%positive; reflexivity.
Qed.

Lemma SFcompare_Eq_finite sx mx ex sy my ey :
  SFcompare (S754_finite sx mx ex) (S754_finite sy my ey) = Some Eq ->
  sx = sy /\ mx = my /\ ex = ey.
Proof.
  simpl. change (Pos.compare_cont Eq mx my) with (Pos.compare mx my).
  destruct sx, sy; try discriminate;
    destruct (Z.compare_spec ex ey); try discriminate;
    destruct (Pos.compare_spec mx my); try discriminate; intros _; subst; auto.
Qed.

Lemma SFcompare_Eq_congr (a b : spec_float) :
  SFcompare a b = Some Eq ->
  forall c, SFcompare c a = SFcompare c b /\ SFcompare a c = SFcompare b c.
Proof.
  intros H c.
  destruct a as [sa|sa| |sa ma ea], b as [sb|sb| |sb mb eb];
    try discriminate; try (destruct sa; discriminate); try (destruct sb; discriminate).
  - destruct c as [sc|sc| |sc mc ec]; split; reflexivity.
  - destruct sa, sb; try discriminate; split; reflexivity.
  - apply SFcompare_Eq_finite in H. destruct H as (-> & -> & ->). split; reflexivity.
Qed.

Lemma SFleb_trans (x y z : spec_float) :
  SFleb x y = true -> SFleb y z = true -> SFleb x z = true.
Proof.
  unfold SFleb, SFcompare.
  destruct x as [sx|sx| |sx mx ex], y as [sy|sy| |sy my ey], z as [sz|sz| |sz mz ez];
    try destruct sx; try destruct sy; try destruct sz;
    try (intros; reflexivity); try (intros; discriminate);
    change (Pos.compare_cont Eq ?a ?b) with (Pos.compare a b);
    destruct (Z.compare_spec ex ey); try (intros; discriminate);
    destruct (Z.compare_spec ey ez); try (intros; discriminate);
    destruct (Z.compare_spec ex ez); try (intros; reflexivity); try lia;
    destruct (Pos.compare_spec mx my); try (intros; discriminate);
    destruct (Pos.compare_spec my mz); try (intros; discriminate);
    destruct (Pos.compare_spec mx mz); try (intros; reflexivity); simpl; try lia.
Qed.

#[local] Instance float_le_trans : Transitive float_le.
Proof.
  intros x y z Hxy Hyz. unfold float_le in *.
  destruct z as [sz|sz| |sz mz ez]; try exact I;
    (destruct y as [sy|sy| |sy my ey];
      [eapply SFleb_trans; eassumption|eapply SFleb_trans; eassumption|
       discriminate|eapply SFleb_trans; eassumption]).
Qed.

#[local] Instance float_le_total : Total float_le.
Proof.
  intros x y. unfold float_le.
  destruct (SFcompare x y) as [c|] eqn:Hc.
  - pose proof (SFcompare_antisym x y) as Ha. rewrite Hc in Ha. simpl in Ha.
    unfold SFleb. rewrite Hc, Ha.
    destruct x, y; try discriminate; destruct c; simpl; auto.
  - destruct x, y; try discriminate; auto.
Qed.

(** *** The quartiles *)

Lemma quantile_position (m k : nat) :
  let h := (Qc_of_nat m * Q2Qc (Z.of_nat k # 4))%Qc in
  Qfloor h = Z.of_nat (m * k / 4)
  /\ (h - Q2Qc (inject_Z (Qfloor h)))%Qc = Q2Qc (Z.of_nat ((m * k) mod 4) # 4).
Proof.
  cbv zeta.
  assert (Hh : (Qc_of_nat m * Q2Qc (Z.of_nat k # 4))%Qc == (Z.of_nat (m * k) # 4)).
  { unfold Qc_of_nat, Qcmult, Q2Qc. cbn [this]. rewrite !Qred_correct.
    unfold Qeq, Qmult, inject_Z. cbn [Qnum Qden]. rewrite Nat2Z.inj_mul.
    change (Z.pos (1 * 4)) with 4%Z. reflexivity. }
  assert (Hf : Qfloor (Qc_of_nat m * Q2Qc (Z.of_nat k # 4))%Qc = Z.of_nat (m * k / 4)).
  { rewrite Hh. unfold Qfloor. rewrite Nat2Z.inj_div. reflexivity. }
  split; [exact Hf|].
  rewrite Hf. apply Qc_is_canon.
  set (x := (Qc_of_nat m * Q2Qc (Z.of_nat k # 4))%Qc) in *.
  unfold Qcminus, Qcplus, Qcopp, Q2Qc. cbn [this].
  repeat rewrite Qred_correct. rewrite Hh.
  pose proof (Nat.div_mod_eq (m * k) 4) as Hd.
  unfold Qeq, Qplus, Qopp, inject_Z. cbn [Qnum Qden]. lia.
Qed.

Lemma quantile_quarters (xs : list spec_float) (k : nat) :
  quantile xs (Q2Qc (Z.of_nat k # 4))
  = lerp (nth ((length xs - 1) * k / 4) (sort_floats xs) S754_nan)
      (nth (Nat.min (S ((length xs - 1) * k / 4)) (length xs - 1)) (sort_floats xs) S754_nan)
      (float64 (Q2Qc (Z.of_nat (((length xs - 1) * k) mod 4) # 4))).
Proof.
  unfold quantile.
  destruct (quantile_position (length xs - 1) k) as [Hf Hg]. cbv zeta in Hf, Hg.
  rewrite Hg, Hf, Nat2Z.id. reflexivity.
Qed.

(** C6. With an amount column and a non-empty parsed population, the
    detector computes in double precision. Q1 and Q3 are the linear
    interpolations at positions (n-1)/4 and 3(n-1)/4 of the sorted
    population: between the value at the floor of the position and the
    next one, with the fractional part of the position as weight [t], as
    [a + (b - a) t] below one half and [b - (b - a) (1 - t)] from one half
    on. The bounds are Q1 - 1.5 IQR and Q3 + 1.5 IQR with IQR = Q3 - Q1.
    The detector returns one anomaly per occurrence of a value strictly
    below the lower or strictly above the upper bound, in the order of the
    rows and nothing else: each with [records_affected] 1, severity High
    when the absolute value exceeds ten times the median of the population
    (the middle of the sorted population, the mean of the two middle
    values when their number is even) and Medium otherwise. A value equal
    to the lower bound is not below it, a value equal to the upper bound
    is not above it, and unless the computed bounds cross (the upper below
    the lower, which takes an overflow) no value equal to a bound is
    flagged. *)
Theorem outliers_strictly_outside_bounds (df : DataFrame) :
  has_column "amount" df = true ->
  let amounts := map float64 (dropna (to_numeric (column "amount" df))) in
  amounts <> [] ->
  let n := length amounts in
  let interpolation := fun a b t =>
    if SFleb (float64 (Q2Qc (1 # 2))) t
    then fsub b (fmul (fsub b a) (fsub (float64 (Q2Qc 1)) t))
    else fadd a (fmul (fsub b a) t) in
  let Q1 := quantile amounts (Q2Qc (1 # 4)) in
  let Q3 := quantile amounts (Q2Qc (3 # 4)) in
  let IQR := fsub Q3 Q1 in
  let lower_bound := fsub Q1 (fmul (float64 (Q2Qc (3 # 2))) IQR) in
  let upper_bound := fadd Q3 (fmul (float64 (Q2Qc (3 # 2))) IQR) in
  let outliers :=
    List.filter (fun a => SFltb a lower_bound || SFltb upper_bound a) amounts in
  (exists sorted, StronglySorted float_le sorted /\ sorted ≡ₚ amounts
     /\ Q1 = interpolation (nth ((n - 1) / 4) sorted S754_nan)
               (nth (Nat.min (S ((n - 1) / 4)) (n - 1)) sorted S754_nan)
               (float64 (Q2Qc (Z.of_nat ((n - 1) mod 4) # 4)))
     /\ Q3 = interpolation (nth ((n - 1) * 3 / 4) sorted S754_nan)
               (nth (Nat.min (S ((n - 1) * 3 / 4)) (n - 1)) sorted S754_nan)
               (float64 (Q2Qc (Z.of_nat (((n - 1) * 3) mod 4) # 4)))
     /\ fmedian amounts
        = if Nat.even n
          then fdiv (fadd (nth (n / 2 - 1) sorted S754_nan) (nth (n / 2) sorted S754_nan))
                 (float64 (Q2Qc 2))
          else nth (n / 2) sorted S754_nan)
  /\ detect_amount_outliers df
     = map (fun a =>
              {| type := AmountOutlier;
                 description := ("Unusual amount: $" ++ format_float a)%string;
                 severity := if SFltb (fmul (fmedian amounts) (float64 (Q2Qc 10))) (SFabs a)
                             then High else Medium;
                 records_affected := 1 |}) outliers
  /\ (forall a, In a outliers
                <-> In a amounts /\ (SFltb a lower_bound = true \/ SFltb upper_bound a = true))
  /\ (forall a, SFeqb a lower_bound = true -> SFltb a lower_bound = false)
  /\ (forall a, SFeqb a upper_bound = true -> SFltb upper_bound a = false)
  /\ (SFltb upper_bound lower_bound = false ->
      forall a, In a outliers -> SFeqb a lower_bound = false /\ SFeqb a upper_bound = false).
Proof.
  clear py_str strict_setitem.
  intros Hcol amounts Hne n interpolation Q1 Q3 IQR lower_bound upper_bound outliers.
  assert (Hin : forall a, In a outliers
                  <-> In a amounts /\ (SFltb a lower_bound = true \/ SFltb upper_bound a = true)).
  { intros a. unfold outliers. rewrite filter_In, orb_true_iff. reflexivity. }
  assert (Hlo : forall a, SFeqb a lower_bound = true -> SFltb a lower_bound = false).
  { intros a. unfold SFeqb, SFltb. destruct (SFcompare a lower_bound) as [[]|]; congruence. }
  assert (Hup : forall a, SFeqb a upper_bound = true -> SFltb upper_bound a = false).
  { intros a. unfold SFeqb, SFltb. rewrite (SFcompare_antisym a upper_bound).
    destruct (SFcompare a upper_bound) as [[]|]; simpl; congruence. }
  split; [|split; [|split; [exact Hin|split; [exact Hlo|split; [exact Hup|]]]]].
  - exists (sort_floats amounts).
    split; [apply (StronglySorted_merge_sort float_le)|].
    split; [apply merge_sort_Permutation|]. split.
    + unfold Q1. change (Q2Qc (1 # 4)) with (Q2Qc (Z.of_nat 1 # 4)).
      rewrite quantile_quarters, Nat.mul_1_r. reflexivity.
    + split; [|reflexivity].
      unfold Q3. change (Q2Qc (3 # 4)) with (Q2Qc (Z.of_nat 3 # 4)).
      rewrite quantile_quarters. reflexivity.
  - unfold detect_amount_outliers. rewrite Hcol. fold amounts.
    assert (Hlen : (0 <? length amounts)%nat = true).
    { apply Nat.ltb_lt. destruct amounts; [congruence|simpl; lia]. }
    rewrite Hlen. reflexivity.
  - intros Hcross a Ha. apply Hin in Ha. destruct Ha as [_ Hout].
    split.
    + destruct (SFeqb a lower_bound) eqn:He; [|reflexivity].
      destruct Hout as [H|H]; [rewrite (Hlo a He) in H; discriminate|].
      unfold SFeqb in He. destruct (SFcompare a lower_bound) as [[]|] eqn:Hc; try discriminate.
      unfold SFltb in H, Hcross.
      rewrite (proj1 (SFcompare_Eq_congr _ _ Hc upper_bound)) in H.
      rewrite H in Hcross. discriminate.
    + destruct (SFeqb a upper_bound) eqn:He; [|reflexivity].
      destruct Hout as [H|H]; [|rewrite (Hup a He) in H; discriminate].
      unfold SFeqb in He. destruct (SFcompare a upper_bound) as [[]|] eqn:Hc; try discriminate.
      unfold SFltb in H, Hcross.
      rewrite (proj2 (SFcompare_Eq_congr _ _ Hc lower_bound)) in H.
      rewrite H in Hcross. discriminate.
Qed.

(** ** Missing columns, negative amounts *)

Lemma dropna_filter_negative (xs : list (option Qc)) :
  dropna (List.filter (fun a => match a with
                                | Some x => bool_decide (x < 0)%Qc
                                | None => false
                                end) xs)
  = List.filter (fun x => bool_decide (x < 0)%Qc) (dropna xs).
Proof.
  induction xs as [|[x|] xs IH]; simpl; [reflexivity| |exact IH].
  destruct (bool_decide (x < 0)%Qc); simpl; rewrite IH; reflexivity.
Qed.

(** Without an amount column the three detectors and the statistics give
    nothing, and without a vendor column the duplicate detector gives
    nothing; none of them raises. *)
Theorem missing_column_skips (df : DataFrame) :
  (has_column "amount" df = false ->
     detect_duplicate_payments df = inr []
     /\ detect_amount_outliers df = []
     /\ detect_negative_amounts df = []
     /\ summary_statistics df = None)
  /\ (has_column "vendor" df = false -> detect_duplicate_payments df = inr []).
Proof.
  unfold detect_duplicate_payments, detect_amount_outliers, detect_negative_amounts,
    summary_statistics.
  split.
  - intros ->. repeat split.
  - intros ->. rewrite andb_false_r. reflexivity.
Qed.

(** The negative detector returns one anomaly, of severity Medium and with
    [records_affected] 1, per parsed amount below zero, in the order of
    the rows. *)
Theorem negative_amounts_one_per_value (df : DataFrame) :
  detect_negative_amounts df
  = if has_column "amount" df
    then map (fun a => {| type := NegativeAmount;
                          description := ("Negative transaction: $" ++ format_2f a)%string;
                          severity := Medium;
                          records_affected := 1 |})
           (List.filter (fun a => bool_decide (a < 0)%Qc)
              (dropna (to_numeric (column "amount" df))))
    else [].
Proof.
  unfold detect_negative_amounts. destruct (has_column "amount" df); [|reflexivity].
  rewrite dropna_filter_negative. reflexivity.
Qed.

(** ** Detection and redaction of one value *)

Lemma search_quiet r : forall s p, search r p s = false <-> quiet r p s.
Proof.
  induction s as [|a s IH]; intros p; cbn [search].
  - split.
    + intros H l t Hs. destruct l; [|discriminate]. destruct t; [|discriminate]. simpl.
      apply match_at_none. destruct (match_at false r p []); [discriminate|reflexivity].
    + intros Hq. rewrite (proj2 (match_at_none r p [])); [reflexivity|].
      apply (Hq [] []). reflexivity.
  - split.
    + intros H l t Hs. destruct (match_at false r p (a :: s)) eqn:Hm; [discriminate|].
      destruct l as [|b l].
      * simpl in *. subst t. apply match_at_none, Hm.
      * simpl in Hs. injection Hs as <- Hs. simpl.
        apply (proj1 (IH (Some a)) H l t Hs).
    + intros Hq. rewrite (proj2 (match_at_none r p (a :: s)))
        by (apply (Hq [] (a :: s)); reflexivity).
      apply IH. intros l t Hs. apply (Hq (a :: l) t). simpl. f_equal. exact Hs.
Qed.

(** The text of a match found at a position. *)
Lemma hit_consumed adv r p m s :
  match_at adv r p (m ++ s) = Some (length m) ->
  Forall (fun a => eats r a = true) m /\ In (prev_after p m, s) (run r (p, m ++ s)).
Proof.
  intros H. apply match_at_sound in H.
  destruct H as (m' & rest & Hs & Hl & _ & Hall & Hin).
  assert (m' = m) as ->.
  { apply (f_equal (firstn (length m))) in Hs.
    rewrite firstn_app, Nat.sub_diag, firstn_all in Hs. simpl in Hs.
    rewrite app_nil_r in Hs. rewrite <- Hl in Hs.
    rewrite firstn_app, Nat.sub_diag, firstn_all in Hs. simpl in Hs.
    rewrite app_nil_r in Hs. congruence. }
  apply app_inv_head in Hs. subst rest. split; assumption.
Qed.

(** A pattern and a mask a second pass leaves alone. *)
Definition stable_mask (r : regex) (repl : list ascii -> list ascii) : Prop :=
  0 < min_len r /\ ends_bnd r = true
  /\ (forall a, lasts r a = true -> is_word a = true)
  /\ (forall h, h <> [] -> mask_ok r (repl h) = true).

Lemma ssn_stable : stable_mask ssn_pattern ssn_mask.
Proof.
  split; [simpl; lia|]. split; [reflexivity|]. split; [apply lasts_word_ssn|].
  intros h _. reflexivity.
Qed.

Lemma phone_stable : stable_mask phone_pattern phone_mask.
Proof.
  split; [simpl; lia|]. split; [reflexivity|]. split; [apply lasts_word_phone|].
  intros h _. reflexivity.
Qed.

Lemma account_stable : stable_mask account_pattern account_mask.
Proof.
  split; [simpl; lia|]. split; [reflexivity|]. split; [apply lasts_word_account|].
  apply account_mask_ok.
Qed.

Lemma sub_loop_clears r repl s :
  stable_mask r repl -> search r None (sub_loop r repl 0 None s) = false.
Proof.
  intros (Hmin & Hend & Hlast & Hmask). apply search_quiet.
  apply (Redacted_quiet r repl Hmin Hend Hlast Hmask None s); [|reflexivity].
  apply (sub_loop_redacted r repl Hmin (length s)). lia.
Qed.

(** A replacement that gives the text back found nothing to replace. *)
Lemma Redacted_fixed r repl p s out :
  stable_mask r repl -> Redacted r repl p s out -> out = s -> quiet r p s.
Proof.
  intros (Hmin & _ & _ & Hmask).
  induction 1 as [p|p a s out Hno Hred IH|p h s out Hh Hhit Hred IH]; intros Heq l t Hs.
  - destruct l; [|discriminate]. destruct t; [|discriminate]. simpl.
    destruct (run r (p, [])) as [|q qs] eqn:Hrun; [reflexivity|].
    assert (Hq : In q (run r (p, []))) by (rewrite Hrun; left; reflexivity).
    destruct (run_sound _ _ _ Hq) as (m & Hm & _ & Hl & _). simpl in Hm.
    destruct m; [simpl in Hl; lia|discriminate].
  - injection Heq as Heq. destruct l as [|b l].
    + simpl in *. subst t. apply match_at_none, Hno.
    + simpl in Hs. injection Hs as <- Hs. simpl. apply (IH Heq l t Hs).
  - exfalso. pose proof (Hmask h Hh) as Hk. unfold mask_ok in Hk.
    destruct (repl h) as [|x k]; [discriminate|].
    apply andb_prop in Hk. destruct Hk as [Hk _].
    apply andb_prop in Hk. destruct Hk as [Hk _].
    apply andb_prop in Hk. destruct Hk as [Hx _].
    destruct (hit_consumed _ _ _ _ _ Hhit) as [Hall _].
    destruct h as [|b h]; [congruence|]. simpl in Heq. injection Heq as -> _.
    inversion Hall as [|? ? Hb _]; subst. rewrite Hb in Hx. discriminate.
Qed.

Lemma sub_loop_changes r repl s :
  stable_mask r repl ->
  (search r None s = true <-> sub_loop r repl 0 None s <> s).
Proof.
  intros Hst. split.
  - intros Hfound Heq.
    assert (Hq : quiet r None s).
    { apply (Redacted_fixed r repl None s (sub_loop r repl 0 None s) Hst); [|exact Heq].
      destruct Hst as (Hmin & _). apply (sub_loop_redacted r repl Hmin (length s)). lia. }
    apply search_quiet in Hq. congruence.
  - intros Hne. destruct (search r None s) eqn:Hs; [reflexivity|].
    exfalso. apply Hne. apply sub_loop_quiet, search_quiet, Hs.
Qed.

Lemma re_search_re_sub r repl text :
  stable_mask r repl -> re_search r (re_sub r repl text) = false.
Proof. intros Hst. unfold re_search. rewrite chars_re_sub. apply sub_loop_clears, Hst. Qed.

Lemma re_sub_unchanged r repl text :
  re_search r text = false -> re_sub r repl text = text.
Proof.
  intros H. unfold re_sub. rewrite sub_loop_quiet by (apply search_quiet, H).
  apply string_of_list_ascii_of_string.
Qed.

Lemma re_sub_changed r repl text :
  stable_mask r repl -> re_search r text = true -> re_sub r repl text <> text.
Proof.
  intros Hst H Heq. apply (proj1 (sub_loop_changes r repl (chars text) Hst) H).
  rewrite <- chars_re_sub, Heq. reflexivity.
Qed.

(** X3. What a redaction for SSN, Phone or AccountNumber returns no
    longer holds a match of that category: the detector of the category
    rejects it, whatever the value was. *)
Theorem redacted_value_not_detected (value : cell) :
  detect_ssn (redact_pii value "ssn") = false
  /\ detect_phone (redact_pii value "phone") = false
  /\ detect_account_number (redact_pii value "account") = false.
Proof.
  destruct value as [s|q|]; unfold redact_pii, detect_ssn, detect_phone,
    detect_account_number; simpl; repeat split;
    first [ apply (re_search_re_sub _ _ _ ssn_stable)
          | apply (re_search_re_sub _ _ _ phone_stable)
          | apply (re_search_re_sub _ _ _ account_stable) ].
Qed.

(** X4. A value no detector of a category accepts comes back from the
    redaction for that category as its own text; for SSN, Phone and
    AccountNumber a value the detector accepts comes back as a different
    text. A missing value comes back missing, a number comes back as a
    text in every case. *)
Theorem redaction_changes_what_is_detected (value : cell) :
  let unchanged := if isna value then value else Text (str value) in
  (detect_ssn value = false -> redact_pii value "ssn" = unchanged)
  /\ (detect_phone value = false -> redact_pii value "phone" = unchanged)
  /\ (detect_email value = false -> redact_pii value "email" = unchanged)
  /\ (detect_account_number value = false -> redact_pii value "account" = unchanged)
  /\ (detect_ssn value = true -> redact_pii value "ssn" <> unchanged)
  /\ (detect_phone value = true -> redact_pii value "phone" <> unchanged)
  /\ (detect_account_number value = true -> redact_pii value "account" <> unchanged).
Proof.
  unfold redact_pii, detect_ssn, detect_phone, detect_email, detect_account_number.
  destruct value as [s|q|]; simpl.
  - repeat split; try (intros H; rewrite re_sub_unchanged by exact H; reflexivity).
    + intros H [= Heq]. exact (re_sub_changed _ _ _ ssn_stable H Heq).
    + intros H [= Heq]. exact (re_sub_changed _ _ _ phone_stable H Heq).
    + intros H [= Heq]. exact (re_sub_changed _ _ _ account_stable H Heq).
  - repeat split; try (intros H; rewrite re_sub_unchanged by exact H; reflexivity).
    + intros H [= Heq]. exact (re_sub_changed _ _ _ ssn_stable H Heq).
    + intros H [= Heq]. exact (re_sub_changed _ _ _ phone_stable H Heq).
    + intros H [= Heq]. exact (re_sub_changed _ _ _ account_stable H Heq).
  - repeat split; intros; try reflexivity; discriminate.
Qed.

(** ** What [analyze_data] leaves in the dataset *)

Lemma duplicate_anomalies_value_error (duplicates : list ((cell * cell) * nat)) :
  match duplicate_anomalies duplicates with
  | inl e => e = ValueError
  | inr _ => True
  end.
Proof.
  induction duplicates as [|[[vendor amount] count] rest IH]; cbn [duplicate_anomalies].
  - exact I.
  - destruct amount as [s|q|]; cbn [format_amount]; [reflexivity| |];
      destruct (duplicate_anomalies rest); [exact IH|exact I|exact IH|exact I].
Qed.

Lemma detect_duplicate_payments_value_error (df : DataFrame) :
  match detect_duplicate_payments df with
  | inl e => e = ValueError
  | inr _ => True
  end.
Proof.
  unfold detect_duplicate_payments.
  destruct (has_column "amount" df && has_column "vendor" df); [|exact I].
  apply duplicate_anomalies_value_error.
Qed.

Lemma redacted_cells_unclassified (values : list cell) :
  observed values = [] -> redacted_cells values = values.
Proof.
  unfold observed, redacted_cells.
  induction values as [|v values IH]; [reflexivity|].
  cbn [omap list_omap map]. destruct (classify v); [discriminate|].
  intros H. f_equal. apply IH, H.
Qed.

(** The dataset [analyze_data] leaves: the columns before the first
    refused one as a completed scan leaves them, the others as they
    were. *)
Lemma analyze_data_written (df : DataFrame) :
  exists before after,
    columns df = before ++ after
    /\ Forall (fun col => refused_column col = false) before
    /\ match after with
       | [] => snd (analyze_data df) <> inl TypeError
       | col :: _ => refused_column col = true /\ snd (analyze_data df) = inl TypeError
       end
    /\ fst (analyze_data df)
       = mkDF (nrows df)
           (map (fun col => (fst col, redacted_cells (snd col))) before ++ after).
Proof.
  destruct (first_refused (columns df)) as [Hok|(before & col & after & Hcols & Hb & Hcol)].
  - exists (columns df), []. rewrite app_nil_r. split; [reflexivity|]. split; [exact Hok|].
    rewrite (analyze_data_accepted df Hok). cbv zeta. rewrite app_nil_r.
    match goal with |- context [detect_duplicate_payments ?d] =>
      pose proof (detect_duplicate_payments_value_error d) as Hv end.
    destruct (detect_duplicate_payments _) as [e|l]; cbn [fst snd].
    + subst e. split; [discriminate|reflexivity].
    + split; [discriminate|reflexivity].
  - exists before, (col :: after). split; [exact Hcols|]. split; [exact Hb|].
    rewrite (analyze_data_refused df _ _ _ Hcols Hb Hcol). cbn [fst snd].
    split; [split; [exact Hcol|reflexivity]|reflexivity].
Qed.

(** X5. [analyze_data] leaves the caller's dataset redacted in place,
    whether it returns or raises. When pandas accepts every write, each
    cell the scanner classifies is replaced by its redaction for that
    category and every other cell is as it was. When pandas refuses a
    text in a column of numbers, the run raises [TypeError] at the first
    such column with a classified cell: the columns before it are
    redacted, this column and those after it are as they were. The run
    raises [TypeError] in no other case, and when it returns,
    ['redacted_data'] is the caller's dataset itself. *)
Theorem analyze_data_redacts_in_place (df : DataFrame) :
  let redacted := fun col : string * list cell =>
    (fst col,
     map (fun v => match classify v with
                   | Some c => redact_pii v (pii_type_of c)
                   | None => v
                   end) (snd col)) in
  let refused := fun col : string * list cell =>
    strict_setitem
    && forallb (fun v => match v with Text _ => false | _ => true end) (snd col)
    && existsb (fun v => match classify v with Some _ => true | None => false end) (snd col) in
  (exists before after,
     columns df = before ++ after
     /\ Forall (fun col => refused col = false) before
     /\ match after with
        | [] => snd (analyze_data df) <> inl TypeError
        | col :: _ => refused col = true /\ snd (analyze_data df) = inl TypeError
        end
     /\ fst (analyze_data df) = mkDF (nrows df) (map redacted before ++ after))
  /\ (snd (analyze_data df) = inl TypeError
      <-> Exists (fun col => refused col = true) (columns df))
  /\ (snd (analyze_data df) <> inl TypeError ->
      fst (analyze_data df) = mkDF (nrows df) (map redacted (columns df)))
  /\ match snd (analyze_data df) with
     | inr r => redacted_data r = fst (analyze_data df)
     | inl _ => True
     end.
Proof.
  intros redacted refused.
  assert (Href : forall col, refused col = refused_column col).
  { intros [name values]. unfold refused, refused_column, setitem_refused, numeric_dtype.
    cbn [snd]. f_equal. unfold observed.
    induction values as [|v values IH]; [reflexivity|].
    cbn [existsb omap list_omap]. destruct (classify v); [reflexivity|exact IH]. }
  assert (Hext : forall l, Forall (fun col => refused_column col = false) l
                           <-> Forall (fun col => refused col = false) l).
  { intros l. apply Forall_iff. intros col. rewrite Href. reflexivity. }
  destruct (analyze_data_written df) as (before & after & Hcols & Hb & Hafter & Hfst).
  split; [|split; [|split]].
  - exists before, after. split; [exact Hcols|]. split; [apply Hext, Hb|].
    split; [|exact Hfst]. destruct after as [|col after]; [exact Hafter|].
    rewrite Href. exact Hafter.
  - destruct after as [|col after].
    + split; [intros H; contradiction|]. intros Hex. exfalso.
      rewrite app_nil_r in Hcols. rewrite Hcols in Hex.
      apply List.Exists_exists in Hex. destruct Hex as (col & Hin & Hcol).
      rewrite List.Forall_forall in Hb. rewrite Href, (Hb col Hin) in Hcol. discriminate.
    + destruct Hafter as [Hcol Hraise]. split; [|intros _; exact Hraise]. intros _.
      rewrite Hcols. apply List.Exists_exists. exists col.
      split; [apply in_or_app; right; left; reflexivity|]. rewrite Href. exact Hcol.
  - intros Hno. destruct after as [|col after]; [|destruct Hafter as [_ Hr]; contradiction].
    rewrite app_nil_r in Hcols, Hfst. rewrite Hfst, Hcols. reflexivity.
  - unfold analyze_data.
    destruct (scan_columns (columns df)) as [written [e|[detected count]]]; [exact I|].
    destruct (detect_duplicate_payments _); [exact I|reflexivity].
Qed.

(** X6. The dataset [analyze_data] leaves has the rows, the column names
    in their order and the column lengths of the one it was given; a
    column in which nothing is classified is left as it was, and so is
    the whole dataset when nothing is classified anywhere. *)
Theorem analyze_data_keeps_shape (df : DataFrame) :
  let df' := fst (analyze_data df) in
  nrows df' = nrows df
  /\ map fst (columns df') = map fst (columns df)
  /\ map (fun col => length (snd col)) (columns df')
     = map (fun col => length (snd col)) (columns df)
  /\ (forall name values, In (name, values) (columns df) -> observed values = [] ->
        In (name, values) (columns df'))
  /\ (Forall (fun col => observed (snd col) = []) (columns df) -> df' = df).
Proof.
  cbv zeta.
  destruct (analyze_data_written df) as (before & after & Hcols & _ & _ & Hfst).
  rewrite Hfst, Hcols. cbn [nrows columns].
  split; [reflexivity|]. split; [|split; [|split]].
  - rewrite !map_app, map_map. reflexivity.
  - rewrite !map_app, map_map. f_equal. apply map_ext. intros [name values]. cbn [fst snd].
    unfold redacted_cells. apply length_map.
  - intros name values Hin Hobs. apply in_app_or in Hin. apply in_or_app.
    destruct Hin as [Hin|Hin]; [left|right; exact Hin].
    apply in_map_iff. exists (name, values). split; [|exact Hin]. cbn [fst snd].
    rewrite redacted_cells_unclassified by exact Hobs. reflexivity.
  - intros Hall. destruct df as [n cols]. cbn [nrows columns] in *. subst cols. f_equal.
    f_equal. apply Forall_app in Hall. destruct Hall as [Hall _]. clear Hfst.
    induction Hall as [|[name values] cols Hobs _ IH]; [reflexivity|].
    cbn [map fst snd] in *. rewrite redacted_cells_unclassified by exact Hobs.
    f_equal. exact IH.
Qed.

(** ** When the run raises *)

Lemma duplicate_anomalies_raises (duplicates : list ((cell * cell) * nat)) :
  duplicate_anomalies duplicates = inl ValueError
  <-> exists g, In g duplicates /\ exists s, snd (fst g) = Text s.
Proof.
  induction duplicates as [|[[vendor amount] count] rest IH]; cbn [duplicate_anomalies].
  - split; [discriminate|]. intros (g & [] & _).
  - pose proof (duplicate_anomalies_value_error rest) as Hv.
    destruct amount as [s|q|]; cbn [format_amount].
    + split; [|reflexivity]. intros _. exists (vendor, Text s, count).
      split; [left; reflexivity|]. exists s. reflexivity.
    + destruct (duplicate_anomalies rest) as [e|l].
      * subst e. split; [|reflexivity]. intros _.
        destruct (proj1 IH eq_refl) as (g & Hg & Hs). exists g. split; [right; exact Hg|exact Hs].
      * split; [discriminate|]. intros (g & [<-|Hg] & s & Hs); [discriminate|].
        assert (H : @inr exn _ l = inl ValueError) by (apply IH; exists g; eauto).
        discriminate.
    + destruct (duplicate_anomalies rest) as [e|l].
      * subst e. split; [|reflexivity]. intros _.
        destruct (proj1 IH eq_refl) as (g & Hg & Hs). exists g. split; [right; exact Hg|exact Hs].
      * split; [discriminate|]. intros (g & [<-|Hg] & s & Hs); [discriminate|].
        assert (H : @inr exn _ l = inl ValueError) by (apply IH; exists g; eauto).
        discriminate.
Qed.

Lemma In_duplicates (keys : list (cell * cell)) (k : cell * cell) (n : nat) :
  In (k, n) (List.filter (fun g => (1 <? snd g)%nat)
               (map (fun k => (k, group_size keys k)) (merge_sort key_le (remove_dups keys))))
  <-> In k keys /\ n = group_size keys k /\ 1 < n.
Proof.
  rewrite filter_In, in_map_iff. cbn [snd]. rewrite Nat.ltb_lt. split.
  - intros [(k' & [= <- <-] & Hk) Hn]. apply (proj1 (In_group_list _ _)) in Hk.
    split; [exact Hk|split; [reflexivity|exact Hn]].
  - intros (Hk & -> & Hn). split; [|exact Hn].
    exists k. split; [reflexivity|]. apply (proj2 (In_group_list _ _)), Hk.
Qed.

(** X7. The duplicate detector raises exactly when both columns are
    there and some (vendor, amount) pair occurring in more than one row
    has a text as its amount, and what it raises then is a [ValueError];
    groups whose amount is a number or that occur once never make it
    raise. *)
Theorem duplicate_detector_raises_iff (df : DataFrame) :
  ((exists e, detect_duplicate_payments df = inl e)
   <-> has_column "amount" df && has_column "vendor" df = true
       /\ exists k, In k (group_keys df) /\ 1 < group_size (group_keys df) k
                    /\ exists s, snd k = Text s)
  /\ match detect_duplicate_payments df with
     | inl e => e = ValueError
     | inr _ => True
     end.
Proof.
  assert (Hiff : detect_duplicate_payments df = inl ValueError
                 <-> has_column "amount" df && has_column "vendor" df = true
                     /\ exists k, In k (group_keys df) /\ 1 < group_size (group_keys df) k
                                  /\ exists s, snd k = Text s).
  { unfold detect_duplicate_payments.
    destruct (has_column "amount" df && has_column "vendor" df).
    + unfold groupby_size. rewrite duplicate_anomalies_raises. split.
      * intros ([k n] & Hg & s & Hs). apply In_duplicates in Hg.
        destruct Hg as (Hk & -> & Hn). split; [reflexivity|].
        exists k. split; [exact Hk|split; [exact Hn|exists s; exact Hs]].
      * intros (_ & k & Hk & Hn & s & Hs). exists (k, group_size (group_keys df) k).
        split; [apply In_duplicates; split; [exact Hk|split; [reflexivity|exact Hn]]|].
        exists s. exact Hs.
    + split; [discriminate|]. intros [H _]. discriminate. }
  assert (Hval : match detect_duplicate_payments df with
                 | inl e => e = ValueError
                 | inr _ => True
                 end).
  { apply detect_duplicate_payments_value_error. }
  split; [|exact Hval].
  rewrite <- Hiff. split.
  - intros [e He]. rewrite He in Hval. subst e. exact He.
  - intros He. exists ValueError. exact He.
Qed.

Lemma list_sum_cons (a : nat) (l : list nat) : list_sum (a :: l) = a + list_sum l.
Proof. reflexivity. Qed.

Lemma duplicate_anomalies_records (duplicates : list ((cell * cell) * nat)) :
  match duplicate_anomalies duplicates with
  | inl _ => True
  | inr l => map records_affected l = map snd duplicates
  end.
Proof.
  induction duplicates as [|[[vendor amount] count] rest IH]; cbn [duplicate_anomalies].
  - reflexivity.
  - destruct (format_amount amount); [exact I|].
    destruct (duplicate_anomalies rest); [exact I|].
    cbn [map records_affected snd]. f_equal. exact IH.
Qed.

Lemma group_size_cons (x k : cell * cell) (keys : list (cell * cell)) :
  group_size (x :: keys) k = (if bool_decide (x = k) then 1 else 0) + group_size keys k.
Proof. unfold group_size. simpl. destruct (bool_decide (x = k)); reflexivity. Qed.

Lemma sum_hits_absent (x : cell * cell) (G : list (cell * cell)) :
  ~ In x G -> list_sum (map (fun k => if bool_decide (x = k) then 1 else 0) G) = 0.
Proof.
  induction G as [|g G IH]; intros Hx; [reflexivity|].
  cbn [map]. rewrite list_sum_cons.
  rewrite bool_decide_eq_false_2 by (intros ->; apply Hx; left; reflexivity).
  rewrite IH by (intros H; apply Hx; right; exact H). reflexivity.
Qed.

Lemma sum_hits_le_one (x : cell * cell) (G : list (cell * cell)) :
  List.NoDup G -> list_sum (map (fun k => if bool_decide (x = k) then 1 else 0) G) <= 1.
Proof.
  induction 1 as [|g G Hg Hnd IH]; [simpl; lia|].
  cbn [map]. rewrite list_sum_cons. destruct (bool_decide (x = g)) eqn:Hx.
  - apply bool_decide_eq_true in Hx. subst g. rewrite (sum_hits_absent x G Hg). lia.
  - lia.
Qed.

Lemma sum_group_sizes_le (G keys : list (cell * cell)) :
  List.NoDup G -> list_sum (map (group_size keys) G) <= length keys.
Proof.
  intros Hnd. induction keys as [|x keys IH].
  - induction G as [|g G IHG]; [simpl; lia|].
    inversion Hnd; subst. cbn [map]. rewrite list_sum_cons.
    change (group_size [] g) with 0. simpl. apply IHG. assumption.
  - assert (Hsplit : list_sum (map (group_size (x :: keys)) G)
                     = list_sum (map (fun k => if bool_decide (x = k) then 1 else 0) G)
                       + list_sum (map (group_size keys) G)).
    { clear. induction G as [|g G IHG]; [reflexivity|].
      cbn [map]. rewrite !list_sum_cons, group_size_cons, IHG. lia. }
    rewrite Hsplit. pose proof (sum_hits_le_one x G Hnd). simpl. lia.
Qed.

Lemma sum_filter_le {A} (P : A -> bool) (f : A -> nat) (l : list A) :
  list_sum (map f (List.filter P l)) <= list_sum (map f l).
Proof.
  induction l as [|a l IH]; [simpl; lia|].
  cbn [List.filter map]. destruct (P a); cbn [map]; rewrite ?list_sum_cons; lia.
Qed.

(** X8. When the duplicate detector returns, every finding covers at
    least two rows and the findings together cover no more rows than
    have both a vendor and an amount, so no more than the dataset has. *)
Theorem duplicate_findings_within_rows (df : DataFrame) :
  match detect_duplicate_payments df with
  | inl _ => True
  | inr l =>
      Forall (fun a => 2 <= records_affected a) l
      /\ list_sum (map records_affected l) <= length (group_keys df)
      /\ length (group_keys df) <= length (column "vendor" df)
      /\ length (group_keys df) <= length (column "amount" df)
  end.
Proof.
  assert (Hlen : length (group_keys df) <= length (column "vendor" df)
                 /\ length (group_keys df) <= length (column "amount" df)).
  { unfold group_keys.
    pose proof (List.filter_length_le
                  (fun k : cell * cell => negb (isna (fst k)) && negb (isna (snd k)))
                  (combine (column "vendor" df) (column "amount" df))) as H.
    rewrite length_combine in H. lia. }
  unfold detect_duplicate_payments.
  destruct (has_column "amount" df && has_column "vendor" df);
    [|split; [constructor|split; [simpl; lia|exact Hlen]]].
  unfold groupby_size.
  set (keys := group_keys df) in *.
  set (dups := List.filter (fun g => (1 <? snd g)%nat)
                 (map (fun k => (k, group_size keys k)) (merge_sort key_le (remove_dups keys)))).
  pose proof (duplicate_anomalies_records dups) as Hrec.
  destruct (duplicate_anomalies dups) as [e|l]; [exact I|].
  split; [|split; [|exact Hlen]].
  - apply Forall_fmap with (f := records_affected). unfold fmap, list_fmap.
    change (Forall (fun n => 2 <= n) (map records_affected l)). rewrite Hrec.
    apply List.Forall_forall. intros n Hn. apply in_map_iff in Hn.
    destruct Hn as ([k m] & <- & Hg). apply filter_In in Hg. destruct Hg as [_ Hm].
    cbn [snd] in *. apply Nat.ltb_lt in Hm. lia.
  - rewrite Hrec. unfold dups.
    eapply Nat.le_trans; [apply sum_filter_le|].
    rewrite map_map. cbn [snd].
    apply sum_group_sizes_le. apply NoDup_ListNoDup, NoDup_group_list.
Qed.

(** ** Populations without outliers *)

Lemma near_refl f : near f f.
Proof.
  destruct f; [right|right|left|right]; try reflexivity; apply SFcompare_refl; discriminate.
Qed.

Lemma fsub_self s m e : fsub (S754_finite s m e) (S754_finite s m e) = S754_zero false.
Proof.
  unfold fsub, SFsub. rewrite Z.sub_diag. reflexivity.
Qed.

Lemma near_cases f x :
  near f x ->
  x = S754_nan
  \/ (exists s s', f = S754_zero s /\ x = S754_zero s')
  \/ (exists s, f = S754_infinity s /\ x = S754_infinity s)
  \/ (exists s m e, f = S754_finite s m e /\ x = f).
Proof.
  intros [->|H]; [left; reflexivity|right].
  destruct f as [sf|sf| |sf mf ef], x as [sx|sx| |sx mx ex];
    try discriminate; try (destruct sf; discriminate); try (destruct sx; discriminate).
  - left. eauto.
  - right. left. destruct sf, sx; try discriminate; eauto.
  - right. right. apply SFcompare_Eq_finite in H. destruct H as (-> & -> & ->). eauto 6.
Qed.

Lemma fsub_near f a b : near f a -> near f b -> null (fsub b a).
Proof.
  intros Ha Hb. apply near_cases in Ha, Hb.
  destruct Hb as [->|Hb]; [left; reflexivity|].
  destruct Ha as [->|Ha]; [left; destruct b; reflexivity|].
  destruct Ha as [(s & s' & -> & ->)|[(s & -> & ->)|(s & m & e & -> & ->)]];
    destruct Hb as [(t & t' & Hf & ->)|[(t & Hf & ->)|(t & m' & e' & Hf & ->)]];
    try discriminate.
  - right. destruct t', s'; eexists; reflexivity.
  - injection Hf as <-. left. destruct s; reflexivity.
  - right. exists false. apply fsub_self.
Qed.

Lemma fmul_null z t : null z -> plain t -> null (fmul z t) /\ null (fmul t z).
Proof.
  intros [->|[s ->]] Ht; destruct t as [st|st| |st mt et]; try contradiction;
    split; try (left; reflexivity); right; eexists; reflexivity.
Qed.

Lemma fadd_near f a z : near f a -> null z -> near f (fadd a z).
Proof.
  intros Ha [->|[s ->]]; [left; destruct a; reflexivity|].
  apply near_cases in Ha.
  destruct Ha as [->|[(t & t' & -> & ->)|[(t & -> & ->)|(t & m & e & -> & ->)]]].
  - left. reflexivity.
  - right. destruct t', s; reflexivity.
  - right. destruct t; reflexivity.
  - right. apply SFcompare_refl. discriminate.
Qed.

Lemma fsub_near_null f a z : near f a -> null z -> near f (fsub a z).
Proof.
  intros Ha [->|[s ->]]; [left; destruct a; reflexivity|].
  apply near_cases in Ha.
  destruct Ha as [->|[(t & t' & -> & ->)|[(t & -> & ->)|(t & m & e & -> & ->)]]].
  - left. reflexivity.
  - right. destruct t', s; reflexivity.
  - right. destruct t; reflexivity.
  - right. apply SFcompare_refl. discriminate.
Qed.

Lemma near_not_lt f x : near f x -> SFltb f x = false /\ SFltb x f = false.
Proof.
  intros [->|H]; unfold SFltb.
  - split; [destruct f; reflexivity|reflexivity].
  - rewrite (SFcompare_antisym f x), H. split; reflexivity.
Qed.

Lemma lerp_near f a b t :
  near f a -> near f b -> plain t -> plain (fsub (float64 (Q2Qc 1)) t) -> near f (lerp a b t).
Proof.
  intros Ha Hb Ht Ht'. unfold lerp.
  pose proof (fsub_near f a b Ha Hb) as Hd.
  destruct (SFleb _ t).
  - apply fsub_near_null; [exact Hb|]. exact (proj1 (fmul_null _ _ Hd Ht')).
  - apply fadd_near; [exact Ha|]. exact (proj1 (fmul_null _ _ Hd Ht)).
Qed.

Lemma weight_plain (r : nat) :
  r < 4 ->
  plain (float64 (Q2Qc (Z.of_nat r # 4)))
  /\ plain (fsub (float64 (Q2Qc 1)) (float64 (Q2Qc (Z.of_nat r # 4)))).
Proof.
  intros Hr. destruct r as [|[|[|[|r]]]]; try lia; vm_compute; split; exact I.
Qed.

Lemma quantile_near (xs : list spec_float) (f : spec_float) (k : nat) :
  (forall x, In x xs -> x = f) -> near f (quantile xs (Q2Qc (Z.of_nat k # 4))).
Proof.
  intros Hall. rewrite quantile_quarters.
  assert (Hnth : forall i, near f (nth i (sort_floats xs) S754_nan)).
  { intros i. destruct (nth_in_or_default i (sort_floats xs) S754_nan) as [Hin|Hd].
    - apply (Permutation_in _ (merge_sort_Permutation float_le xs)) in Hin.
      rewrite (Hall _ Hin). apply near_refl.
    - left. exact Hd. }
  destruct (weight_plain (((length xs - 1) * k) mod 4)) as [H1 H2].
  { apply Nat.mod_upper_bound. lia. }
  apply lerp_near; auto.
Qed.

Lemma equal_values_no_outliers (xs : list spec_float) (f : spec_float) :
  (forall x, In x xs -> x = f) ->
  let Q1 := quantile xs (Q2Qc (1 # 4)) in
  let Q3 := quantile xs (Q2Qc (3 # 4)) in
  let IQR := fsub Q3 Q1 in
  let lower_bound := fsub Q1 (fmul (float64 (Q2Qc (3 # 2))) IQR) in
  let upper_bound := fadd Q3 (fmul (float64 (Q2Qc (3 # 2))) IQR) in
  List.filter (fun a => SFltb a lower_bound || SFltb upper_bound a) xs = [].
Proof.
  intros Hall Q1 Q3 IQR lower_bound upper_bound.
  assert (H1 : near f Q1) by (apply (quantile_near xs f 1), Hall).
  assert (H3 : near f Q3) by (apply (quantile_near xs f 3), Hall).
  assert (Hi : null IQR) by (apply (fsub_near f); assumption).
  assert (Hm : null (fmul (float64 (Q2Qc (3 # 2))) IQR)).
  { refine (proj2 (fmul_null IQR (float64 (Q2Qc (3 # 2))) Hi _)). vm_compute. exact I. }
  assert (Hl : near f lower_bound) by (apply fsub_near_null; assumption).
  assert (Hu : near f upper_bound) by (apply fadd_near; assumption).
  clearbody lower_bound upper_bound. clear -Hall Hl Hu.
  induction xs as [|a xs IH]; [reflexivity|].
  cbn [List.filter]. rewrite (Hall a (or_introl eq_refl)).
  rewrite (proj1 (near_not_lt _ _ Hl)), (proj2 (near_not_lt _ _ Hu)). simpl.
  apply IH. intros x Hx. apply Hall. right. exact Hx.
Qed.

(** X9. When all the amounts that parse are one and the same value (in
    particular when only one amount parses), the outlier detector flags
    nothing. *)
Theorem equal_amounts_no_outliers (df : DataFrame) (v : Qc) :
  (forall x, In x (dropna (to_numeric (column "amount" df))) -> x = v) ->
  detect_amount_outliers df = [].
Proof.
  clear py_str strict_setitem.
  intros Hall. unfold detect_amount_outliers.
  destruct (has_column "amount" df); [|reflexivity].
  set (amounts := map float64 (dropna (to_numeric (column "amount" df)))) in *.
  destruct (0 <? length amounts)%nat; [|reflexivity].
  rewrite (equal_values_no_outliers amounts (float64 v)); [reflexivity|].
  intros x Hx. unfold amounts in Hx. apply in_map_iff in Hx.
  destruct Hx as (q & <- & Hq). rewrite (Hall q Hq). reflexivity.
Qed.

(** ** A dataset without rows *)

Lemma lookup_column_empty (name : string) (cols : list (string * list cell)) :
  Forall (fun col => snd col = []) cols -> lookup_column name cols = [].
Proof.
  induction 1 as [|[c values] cols Hc _ IH]; [reflexivity|].
  cbn [lookup_column]. simpl in Hc. subst values. destruct (String.eqb c name); [reflexivity|exact IH].
Qed.

Lemma scan_columns_empty (cols : list (string * list cell)) :
  Forall (fun col => snd col = []) cols -> scan_columns cols = (cols, inr ([], 0)).
Proof.
  induction 1 as [|[c values] cols Hc _ IH]; [reflexivity|].
  simpl in Hc. subst values. cbn [scan_columns scan_column]. rewrite IH. reflexivity.
Qed.

(** X11. A dataset whose columns have no rows is analysed without error:
    the report is empty, the redaction count is zero, no anomaly is found,
    there are no summary statistics, and the dataset is left as it
    was. *)
Theorem analyze_data_no_rows (df : DataFrame) :
  Forall (fun col => snd col = []) (columns df) ->
  analyze_data df
  = (df, inr {| pii_detected := [];
                pii_count := 0;
                anomalies := [];
                summary_stats := None;
                redacted_data := df |}).
Proof.
  intros Hempty. unfold analyze_data. rewrite (scan_columns_empty _ Hempty).
  destruct df as [n cols]. cbn [nrows columns] in *.
  assert (Hcol : forall name, column name (mkDF n cols) = [])
    by (intros name; apply lookup_column_empty, Hempty).
  unfold detect_duplicate_payments, groupby_size, group_keys, detect_amount_outliers,
    detect_negative_amounts, summary_statistics.
  rewrite !Hcol.
  destruct (has_column "amount" (mkDF n cols)); destruct (has_column "vendor" (mkDF n cols));
    reflexivity.
Qed.

End Pipeline.

(** ** Closed instances

    The theorems above at concrete datasets, with [decimal_number] and
    [float_str] for the two readings of numbers, and under both
    behaviours of pandas on a text written into a column of numbers. *)

(** C1 (the code departs from it). [analyze_data] writes the redactions
    into the dataset it is given, and the detectors then read the redacted
    cells: on [df_contacts] the caller's dataset ends with both vendors
    masked, and the run reports a duplicate payment to the mask, where the
    duplicate detector on the dataset as given finds none. *)
Theorem analyze_data_overwrites_input (strict_setitem : bool) :
  fst (analyze_data float_str decimal_number strict_setitem df_contacts)
  = mkDF 2 [("vendor", [Text "REDACTED@EMAIL.COM"; Text "REDACTED@EMAIL.COM"]);
            ("amount", [num 100; num 100])]
  /\ match snd (analyze_data float_str decimal_number strict_setitem df_contacts) with
     | inr r =>
         redacted_data r
         = fst (analyze_data float_str decimal_number strict_setitem df_contacts)
         /\ map (fun a => (type a, description a, records_affected a)) (anomalies r)
            = [(DuplicatePayment,
                "$100.00 payment to REDACTED@EMAIL.COM appears 2 times"%string, 2%nat)]
     | inl _ => False
     end
  /\ detect_duplicate_payments float_str df_contacts = inr [].
Proof. destruct strict_setitem; vm_compute; repeat split. Qed.

(** C5, counterexample: redacting an e-mail twice is not redacting it
    once. In [x@-.a@b.cc] the address found is [a@b.cc]; with the mask in
    its place, [x@-.REDACTED] is an address too, and the second redaction
    replaces it. The same happens after a [|], which the pattern takes for
    a letter of the top-level domain. *)
Lemma email_redaction_not_idempotent :
  redact_pii float_str (Text "x@-.a@b.cc") "email" = Text "x@-.REDACTED@EMAIL.COM"
  /\ redact_pii float_str (redact_pii float_str (Text "x@-.a@b.cc") "email") "email"
     = Text "REDACTED@EMAIL.COM@EMAIL.COM"
  /\ redact_pii float_str (Text "ann@corp.com|sales.dept") "email"
     = Text "REDACTED@EMAIL.COM.dept"
  /\ redact_pii float_str (redact_pii float_str (Text "ann@corp.com|sales.dept") "email") "email"
     = Text "REDACTED@EMAIL.COM".
Proof. vm_compute. repeat split. Qed.

(** C8 (the code departs from it). An amount that does not parse is left
    out by the outlier and the negative detector and by the statistics,
    but the duplicate detector raises on it when its row is repeated, and
    the run ends with the exception. *)
Theorem unparseable_amount_raises (strict_setitem : bool) :
  coerce decimal_number (Text "TBD") = None
  /\ detect_duplicate_payments float_str df_text_amounts = inl ValueError
  /\ snd (analyze_data float_str decimal_number strict_setitem df_text_amounts)
     = inl ValueError
  /\ detect_amount_outliers decimal_number df_text_amounts = []
  /\ detect_negative_amounts decimal_number df_text_amounts = []
  /\ summary_statistics decimal_number df_text_amounts = None.
Proof. destruct strict_setitem; vm_compute; repeat split. Qed.



(** C7, counterexample: two rows with exactly the same (vendor, amount)
    pair, the vendor missing in both, and no anomaly. *)
Lemma missing_vendor_not_grouped :
  combine (column "vendor" df_no_vendor) (column "amount" df_no_vendor)
  = [(Missing, num 100); (Missing, num 100)]
  /\ detect_duplicate_payments float_str df_no_vendor = inr [].
Proof. vm_compute. split; reflexivity. Qed.

Lemma duplicate_payments_witness :
  has_column "amount" df_sample && has_column "vendor" df_sample = true
  /\ (exists groups,
        detect_duplicate_payments float_str df_sample
        = inr (map (duplicate_anomaly float_str) groups)
        /\ NoDup (map fst groups))
  /\ detect_duplicate_payments float_str df_sample
     = inr [ {| type := DuplicatePayment;
                description := "$245.67 payment to Office Supplies Inc appears 3 times";
                severity := Medium;
                records_affected := 3 |} ].
Proof.
  split; [reflexivity|]. split; [|vm_compute; reflexivity].
  destruct (duplicate_payments_one_per_group float_str df_sample eq_refl)
    as (_ & _ & groups & Heq & Hnd & _).
  - intros [v a] Hk _. vm_compute in Hk.
    destruct Hk as [Hk|[Hk|[Hk|[Hk|[]]]]]; injection Hk as <- <-; eexists; reflexivity.
  - exists groups. split; [exact Heq|exact Hnd].
Defined.

Lemma outliers_witness :
  has_column "amount" df_refund = true
  /\ map (fun a => (description a, severity a, records_affected a))
       (detect_amount_outliers decimal_number df_refund)
     = [("Unusual amount: $-1,000.00"%string, High, 1%nat)]
  /\ map (fun a => (description a, severity a, records_affected a))
       (detect_amount_outliers decimal_number df_outlier)
     = [("Unusual amount: $1,000.00"%string, High, 1%nat)].
Proof.
  split; [reflexivity|]. split; [|vm_compute; reflexivity].
  destruct (outliers_strictly_outside_bounds decimal_number df_refund eq_refl)
    as (_ & Heq & _).
  - vm_compute. discriminate.
  - rewrite Heq. vm_compute. reflexivity.
Defined.

(** Doubles: the one nearest to 245.67, its value, and how amounts
    print. *)
Example float64_of_decimal :
  float64 (Q2Qc (24567 # 100)) = S754_finite false 8643744691063357 (-45)
  /\ float_value (float64 (Q2Qc (24567 # 100))) = Q2Qc (8643744691063357 # 35184372088832)
  /\ float64 (Q2Qc (-3 # 2)) = S754_finite true 6755399441055744 (-52)
  /\ map format_float [float64 (Q2Qc (24567 # 100)); float64 (Q2Qc (-1234567891 # 1000));
                       float64 (Q2Qc (2675 # 1000)); float64 (Q2Qc (-1 # 1000));
                       S754_infinity true]
     = ["245.67"; "-1,234,567.89"; "2.67"; "-0.00"; "-inf"]%string.
Proof. vm_compute. repeat split. Qed.

(** The quartiles, the bounds and the median of four amounts: the
    positions 0.75 and 2.25 fall between values. *)
Example quartiles_of_four_amounts :
  let amounts := map float64 [Q2Qc 10; Q2Qc 12; Q2Qc 11; Q2Qc 13] in
  quantile amounts (Q2Qc (1 # 4)) = float64 (Q2Qc (1075 # 100))
  /\ quantile amounts (Q2Qc (3 # 4)) = float64 (Q2Qc (1225 # 100))
  /\ fmedian amounts = float64 (Q2Qc (115 # 10)).
Proof. vm_compute. repeat split. Qed.

(** Values exactly at the bounds (1 and 9, with Q1 = 4 and Q3 = 6) are not
    flagged. *)
Example values_at_bounds_not_flagged :
  detect_amount_outliers decimal_number
    (mkDF 5 [("amount", [num 1; num 4; num 5; num 6; num 9])]) = [].
Proof. vm_compute. reflexivity. Qed.

(** Rounding moves a bound. On [df_cents] the lower bound over the
    rationals is -850.04, the least amount itself; the doubles give
    1.5 * 899.8 = 1349.6999999999998 and a lower bound just above
    -850.04, and the amount is flagged. *)
Example rounded_bound_flags_amount :
  (Q2Qc (49966 # 100) - Q2Qc (3 # 2) * (Q2Qc (139946 # 100) - Q2Qc (49966 # 100)))%Qc
  = Q2Qc (-85004 # 100)
  /\ map (fun a => (description a, severity a, records_affected a))
       (detect_amount_outliers decimal_number df_cents)
     = [("Unusual amount: $-850.04"%string, Medium, 1%nat)].
Proof. split; [apply Qc_is_canon; reflexivity|vm_compute; reflexivity]. Qed.

Lemma equal_amounts_witness :
  dropna (to_numeric decimal_number (column "amount" df_equal_amounts))
  = [Q2Qc (inject_Z 5); Q2Qc (inject_Z 5); Q2Qc (inject_Z 5)]
  /\ detect_amount_outliers decimal_number df_equal_amounts = [].
Proof.
  split; [reflexivity|].
  apply (equal_amounts_no_outliers decimal_number df_equal_amounts (Q2Qc (inject_Z 5))).
  intros x Hx. vm_compute in Hx.
  destruct Hx as [<-|[<-|[<-|[]]]]; apply Qc_is_canon; reflexivity.
Defined.

Lemma analyze_data_no_rows_witness :
  snd (analyze_data float_str decimal_number true df_no_rows)
  = inr {| pii_detected := [];
           pii_count := 0;
           anomalies := [];
           summary_stats := None;
           redacted_data := df_no_rows |}.
Proof.
  rewrite (analyze_data_no_rows float_str decimal_number true df_no_rows).
  - reflexivity.
  - repeat constructor.
Defined.

(** ** The patterns on sample texts *)

Example ssn_1 : re_search ssn_pattern "id 123-45-6789." = true.
Proof. vm_compute. reflexivity. Qed.
Example ssn_2 : re_search ssn_pattern "1234567890" = false.
Proof. vm_compute. reflexivity. Qed.
Example phone_1 : re_search phone_pattern "8876543210.0" = true.
Proof. vm_compute. reflexivity. Qed.
Example email_1 :
  re_sub email_pattern (fun _ => chars "REDACTED@EMAIL.COM") "a@b.co|x.yz" = "REDACTED@EMAIL.COM.yz"%string.
Proof. vm_compute. reflexivity. Qed.
Example email_2 :
  re_sub email_pattern (fun _ => chars "REDACTED@EMAIL.COM") "REDACTED@EMAIL.COM.yz" = "REDACTED@EMAIL.COM"%string.
Proof. vm_compute. reflexivity. Qed.
Example acct_1 :
  re_sub account_pattern (fun m => repeat "X"%char (length m)) "acct 1234567890, ref 12" = "acct XXXXXXXXXX, ref 12"%string.
Proof. vm_compute. reflexivity. Qed.

(** ** The sample data of the application, analysed

    With a pandas that accepts a text in a column of numbers the run
    returns. With one that refuses it the run ends at the first account
    number: the contacts are redacted by then, the account numbers are
    not. *)

Example sample_data_analysis :
  match snd (analyze_data float_str decimal_number false sample_data) with
  | inl _ => False
  | inr r =>
      map (fun a => (type a, description a, severity a, records_affected a)) (anomalies r)
      = [(DuplicatePayment,
          "$245.67 payment to Office Supplies Inc appears 3 times"%string, Medium, 3%nat);
         (NegativeAmount, "Negative transaction: $-150.00"%string, Medium, 1%nat)]
      /\ pii_count r = 13%nat
      /\ map (fun e => (fst e, elements (snd e))) (pii_detected r)
         = [("employee_contact"%string, [Email; Phone]); ("account_number"%string, [Phone])]
      /\ option_map (fun st => (total_transactions st, format_2f (total_amount st),
                                format_2f (median_amount st)))
           (summary_stats r)
         = Some (10%nat, "14,779.35"%string, "821.17"%string)
      /\ lookup_column "employee_contact" (columns (redacted_data r))
         = [Text "REDACTED@EMAIL.COM"; Text "XXX-XXX-XXXX"; Text "REDACTED@EMAIL.COM";
            Text "REDACTED@EMAIL.COM"; Missing; Text "REDACTED@EMAIL.COM";
            Text "REDACTED@EMAIL.COM"; Text "REDACTED@EMAIL.COM"; Missing;
            Text "REDACTED@EMAIL.COM"]
  end.
Proof. vm_compute. repeat split. Qed.

Example sample_data_refused :
  let '(df, outcome) := analyze_data float_str decimal_number true sample_data in
  outcome = inl TypeError
  /\ lookup_column "employee_contact" (columns df)
     = [Text "REDACTED@EMAIL.COM"; Text "XXX-XXX-XXXX"; Text "REDACTED@EMAIL.COM";
        Text "REDACTED@EMAIL.COM"; Missing; Text "REDACTED@EMAIL.COM";
        Text "REDACTED@EMAIL.COM"; Text "REDACTED@EMAIL.COM"; Missing;
        Text "REDACTED@EMAIL.COM"]
  /\ lookup_column "account_number" (columns df)
     = lookup_column "account_number" (columns sample_data).
Proof. vm_compute. repeat split. Qed.
